(** * ironic-inspector: the node cache and the introspection request handler

    A shallow embedding of [ironic_inspector/node_cache.py] and
    [ironic_inspector/introspect.py].

    - The SQLite database is a record of three tables, each a list of rows in
      insertion order.  Primary keys are checked by the insert statements, as
      SQLite does; foreign keys are not enforced (SQLite's default), so they
      are not modelled.
    - Python code is written in a state-and-exception monad over the
      database and the log.  [with_db] is the [with _db() as db:] block: it
      commits when the body returns and rolls the database back when the
      body raises.
    - [time.time()] is an input: every function takes one timestamp per call
      site.  Timestamps are integers (clock ticks); the code only compares
      and subtracts them.
    - Text produced with the [%] operator is kept as the template of the
      source together with the interpolated values.
    - The control-plane client, the retry helper, the firewall and the
      helpers of [utils] are known by the outcome of each call: a value, or
      an exception of class [Exception].  Signals outside that class
      ([SystemExit], [KeyboardInterrupt]) are not modelled.
    - The [value] column of [options] holds a JSON document; documents are
      kept as syntax trees, with [json_dumps] and [json_loads] between them
      and Python values. *)

From stdpp Require Import base list strings gmap sorting.
From Stdlib Require Import ZArith Lia.

Open Scope string_scope.
Open Scope list_scope.

Set Warnings "-register-all,-clear-no-such-hyp".

(** ** Python values *)

(** What [json.dumps] accepts among the values the program stores. *)
Inductive pyobj :=
| PyNone
| PyStr (s : string)
| PyTuple (items : list pyobj)
| PyList (items : list pyobj).

(** A JSON document, the content of the [value] column of [options]. *)
Inductive json :=
| JNull
| JString (s : string)
| JArray (items : list json).

Fixpoint json_dumps (v : pyobj) : json :=
  match v with
  | PyNone => JNull
  | PyStr s => JString s
  | PyTuple items => JArray (map json_dumps items)
  | PyList items => JArray (map json_dumps items)
  end.

Fixpoint json_loads (j : json) : pyobj :=
  match j with
  | JNull => PyNone
  | JString s => PyStr s
  | JArray items => PyList (map json_loads items)
  end.

(** Truth value of an object, as [if x:] and [not x] test it. *)
Definition truthy (v : pyobj) : bool :=
  match v with
  | PyNone => false
  | PyStr s => negb (String.eqb s EmptyString)
  | PyTuple items => negb (Nat.eqb (length items) 0)
  | PyList items => negb (Nat.eqb (length items) 0)
  end.

(** The value of a look up attribute: one string or a list of strings. *)
Inductive lookup_value :=
| Single (v : string)
| Many (vs : list string).

#[global] Instance lookup_value_eq_dec : EqDecision lookup_value.
Proof. solve_decision. Defined.

(** [**attributes]: the items of the keyword dictionary; [None] is Python's
    [None]. *)
Definition kwargs := list (string * option lookup_value).

(** [not value] *)
Definition is_empty (value : option lookup_value) : bool :=
  match value with
  | None => true
  | Some (Single v) => String.eqb v EmptyString
  | Some (Many vs) => Nat.eqb (length vs) 0
  end.

(** [if not isinstance(value, list): value = [value]] *)
Definition as_list (value : lookup_value) : list string :=
  match value with
  | Single v => [v]
  | Many vs => vs
  end.

(** ** Text, exceptions and the log *)

Inductive text :=
| Text (template : string) (args : list fmt_arg)
with fmt_arg :=
| ArgStr (s : string)
| ArgList (l : list string)
| ArgTime (t : Z)
| ArgKwargs (k : kwargs)
| ArgText (t : text).

Definition Lit (s : string) : text := Text s [].

Inductive exn :=
| Error (msg : text) (code : Z)          (* utils.Error(msg, code) *)
| NotFoundInCacheError (msg : text)      (* utils.NotFoundInCacheError *)
| IntegrityError                         (* sqlite3.IntegrityError *)
| NotFound (msg : text)                  (* ironicclient.exceptions.NotFound *)
| HttpError (msg : text)                 (* ironicclient.exceptions.HttpError *)
| OtherException (msg : text).           (* any other Exception *)

(** Default [code] of [utils.Error]. *)
Definition default_code : Z := 400.

(** [isinstance(exc, utils.Error)] *)
Definition is_utils_Error (e : exn) : bool :=
  match e with
  | Error _ _ | NotFoundInCacheError _ => true
  | _ => false
  end.

(** [str(exc)]; the text SQLite gives an [IntegrityError] is not
    modelled. *)
Definition str (e : exn) : text :=
  match e with
  | Error msg _ | NotFoundInCacheError msg | NotFound msg | HttpError msg
  | OtherException msg => msg
  | IntegrityError => Lit "IntegrityError"
  end.

Inductive level := DEBUG | INFO | WARNING | ERROR | CRITICAL.

Record log_entry := Log { log_level : level; log_message : text }.

(** ** The database *)

Record node_row := NodeRow {
  row_uuid : string;
  row_started_at : Z;
  row_finished_at : option Z;
  row_error : option text
}.

Record attribute_row := AttributeRow {
  attr_name : string;
  attr_value : string;
  attr_uuid : string
}.

#[global] Instance attribute_row_eq_dec : EqDecision attribute_row.
Proof. solve_decision. Defined.

Record option_row := OptionRow {
  opt_uuid : string;
  opt_name : string;
  opt_value : json
}.

Record DB := MkDB {
  nodes_table : list node_row;
  attributes_table : list attribute_row;
  options_table : list option_row
}.

Record world := World {
  db : DB;
  log : list log_entry
}.

(** ** The monad *)

Definition M (A : Type) : Type := world → (exn + A) * world.

Definition ret {A} (a : A) : M A := λ w, (inr a, w).

Definition bind {A B} (m : M A) (k : A → M B) : M B :=
  λ w, match m w with
       | (inr a, w') => k a w'
       | (inl e, w') => (inl e, w')
       end.

Definition raise {A} (e : exn) : M A := λ w, (inl e, w).

(** [try: m  except Exception as exc: h exc] *)
Definition try_except {A} (m : M A) (h : exn → M A) : M A :=
  λ w, match m w with
       | (inr a, w') => (inr a, w')
       | (inl e, w') => h e w'
       end.

Notation "'let*' x ':=' m 'in' k" := (bind m (λ x, k))
  (at level 10, x name, m at level 100, k at level 200).
Notation "'do' m 'then' k" := (bind m (λ _, k))
  (at level 10, m at level 100, k at level 200).

Definition get_db : M DB := λ w, (inr (db w), w).
Definition LOG (l : level) (msg : text) : M unit :=
  λ w, (inr tt, World (db w) (log w ++ [Log l msg])).

(** [with _db() as db: body]: commit on return, roll back on exception. *)
Definition with_db {A} (body : M A) : M A :=
  λ w, match body w with
       | (inr a, w') => (inr a, w')
       | (inl e, w') => (inl e, World (db w) (log w'))
       end.

(** [with _maybe_db(database) as db: body]: a transaction of its own only
    when no connection is passed in. *)
Definition _maybe_db {A} (database : bool) (body : M A) : M A :=
  if database then body else with_db body.

(** ** SQL statements *)

Definition set_nodes (d : DB) (t : list node_row) : DB :=
  MkDB t (attributes_table d) (options_table d).
Definition set_attributes (d : DB) (t : list attribute_row) : DB :=
  MkDB (nodes_table d) t (options_table d).
Definition set_options (d : DB) (t : list option_row) : DB :=
  MkDB (nodes_table d) (attributes_table d) t.

(** [delete from nodes where uuid=?] *)
Definition delete_node (u : string) (d : DB) : DB :=
  set_nodes d (filter (λ r, row_uuid r ≠ u) (nodes_table d)).

(** [delete from attributes where uuid=?] *)
Definition delete_attributes (u : string) (d : DB) : DB :=
  set_attributes d (filter (λ a, attr_uuid a ≠ u) (attributes_table d)).

(** [delete from options where uuid=?] *)
Definition delete_options (u : string) (d : DB) : DB :=
  set_options d (filter (λ o, opt_uuid o ≠ u) (options_table d)).

(** [delete from options where uuid=? and name=?] *)
Definition delete_option (u name : string) (d : DB) : DB :=
  set_options d (filter (λ o, ¬ (opt_uuid o = u ∧ opt_name o = name)) (options_table d)).

(** [insert into nodes(uuid, started_at) values(?, ?)]; [uuid] is the
    primary key. *)
Definition insert_node (u : string) (started : Z) (d : DB) : option DB :=
  if decide (u ∈ row_uuid <$> nodes_table d) then None
  else Some (set_nodes d (nodes_table d ++ [NodeRow u started None None])).

(** [insert into attributes(name, value, uuid) values(?, ?, ?)];
    [(name, value)] is the primary key. *)
Definition insert_attribute (name v u : string) (d : DB) : option DB :=
  if decide ((name, v) ∈ (λ a, (attr_name a, attr_value a)) <$> attributes_table d)
  then None
  else Some (set_attributes d (attributes_table d ++ [AttributeRow name v u])).

(** [insert into options(uuid, name, value) values(?,?,?)]; [(uuid, name)]
    is the primary key. *)
Definition insert_option (u name : string) (j : json) (d : DB) : option DB :=
  if decide ((u, name) ∈ (λ o, (opt_uuid o, opt_name o)) <$> options_table d)
  then None
  else Some (set_options d (options_table d ++ [OptionRow u name j])).

(** [update nodes set finished_at=?, error=? where uuid=?] *)
Definition update_finished (u : string) (t : Z) (err : option text) (d : DB) : DB :=
  set_nodes d
    ((λ r, if decide (row_uuid r = u)
           then NodeRow (row_uuid r) (row_started_at r) (Some t) err
           else r) <$> nodes_table d).

(** Run one statement that cannot fail. *)
Definition execute (stmt : DB → DB) : M unit :=
  λ w, (inr tt, World (stmt (db w)) (log w)).

(** Run one insert; a primary key conflict raises [IntegrityError]. *)
Definition execute_insert (stmt : DB → option DB) : M unit :=
  λ w, match stmt (db w) with
       | Some d => (inr tt, World d (log w))
       | None => (inl IntegrityError, w)
       end.

(** [db.executemany(stmt, params)]: the statement once per parameter, in
    order, stopping at the first that raises. *)
Fixpoint executemany {P} (stmt : P → M unit) (params : list P) : M unit :=
  match params with
  | [] => ret tt
  | p :: ps => do stmt p then executemany stmt ps
  end.

(** [for x in items: body], with the loop's variables threaded as [acc]. *)
Fixpoint for_loop {A S} (items : list A) (body : S → A → M S) (acc : S) : M S :=
  match items with
  | [] => ret acc
  | x :: xs => let* acc' := body acc x in for_loop xs body acc'
  end.

(** ** Configuration *)

Record config := Config {
  node_status_keep_time : Z;               (* CONF.node_status_keep_time *)
  timeout : Z;                             (* CONF.timeout *)
  enable_setting_ipmi_credentials : bool   (* CONF.processing.... *)
}.

(** ** External collaborators

    The control-plane client is known by the outcome of each call the
    program makes; a call made through [utils.retry_on_conflict] is known by
    the outcome of the helper.  [inl exc] and [Some exc] mean that the call
    raised [exc]. *)

Record node := Node {
  node_uuid : string;
  maintenance : bool;
  driver_info : gmap string string
}.

Record validation := Validation {
  power_result : bool;
  power_reason : string
}.

Record ironic_client := Ironic {
  node_get : string → exn + node;
  node_validate : string → exn + validation;
  node_list_ports : string → exn + list string;   (* the ports' addresses *)
  node_set_boot_device : string → option exn;
  node_set_power_state : string → option exn
}.

(** Lift the outcome of a call. *)
Definition call {A} (outcome : exn + A) : M A :=
  match outcome with
  | inl exc => raise exc
  | inr a => ret a
  end.

Definition call_ (outcome : option exn) : M unit :=
  match outcome with
  | Some exc => raise exc
  | None => ret tt
  end.

(** ** node_cache.py *)

Definition MACS_ATTRIBUTE : string := "mac".

(** The errors raised by the cache, with the text of the source. *)

Definition already_on_introspection (name : string) (value : list string) : exn :=
  Error
    (Text "Some or all of %(name)s's %(value)s are already on introspection"
          [ArgStr name; ArgList value])
    default_code.

Definition could_not_find_a_node (attributes : kwargs) : exn :=
  NotFoundInCacheError
    (Text "Could not find a node for attributes %s" [ArgKwargs attributes]).

Definition multiple_matching_nodes (attributes : kwargs) (found : list string)
    : exn :=
  Error
    (Text "Multiple matching nodes found for attributes %(attr)s: %(found)s"
          [ArgKwargs attributes; ArgList found])
    404.

Definition not_in_introspection_cache (uuid : string) : exn :=
  Error
    (Text "Could not find node %s in introspection cache, probably it's not on introspection now"
          [ArgStr uuid])
    404.

Definition already_finished (uuid : string) (finish : Z) : exn :=
  Error
    (Text "Introspection for node %(node)s already finished on %(finish)s"
          [ArgStr uuid; ArgTime finish])
    default_code.

Module NodeInfo.

(** Record about a node in the cache.  [_options] and [_ports] are the
    lazily filled caches; [None] means not loaded. *)
Record t := Make {
  uuid : string;
  started_at : Z;
  finished_at : option Z;
  error : option text;
  _options : option (gmap string pyobj);
  _ports : option (list string)
}.

(** [NodeInfo(uuid=..., started_at=...)] *)
Definition new (uuid : string) (started_at : Z) : t :=
  Make uuid started_at None None None None.

Definition with_options (self : t) (o : gmap string pyobj) : t :=
  Make (uuid self) (started_at self) (finished_at self) (error self)
       (Some o) (_ports self).

Definition with_ports (self : t) (p : list string) : t :=
  Make (uuid self) (started_at self) (finished_at self) (error self)
       (_options self) (Some p).

(** [{row['name']: json.loads(row['value']) for row in rows}]: a later
    row replaces an earlier one with the same name. *)
Definition options_dict (rows : list option_row) : gmap string pyobj :=
  foldl (λ m r, <[opt_name r := json_loads (opt_value r)]> m) ∅ rows.

(** The [options] property: the dictionary and the handle with its cache
    filled. *)
Definition options (self : t) : M (gmap string pyobj * t) :=
  match _options self with
  | Some o => ret (o, self)
  | None =>
      let* d := get_db in
      let rows := filter (λ r, opt_uuid r = uuid self) (options_table d) in
      let o := options_dict rows in
      ret (o, with_options self o)
  end.

Definition set_option (self : t) (name : string) (value : pyobj) : M t :=
  let encoded := json_dumps value in
  let* r := options self in
  let self := with_options (snd r) (<[name := value]> (fst r)) in
  do with_db
       (do execute (delete_option (uuid self) name)
        then execute_insert (insert_option (uuid self) name encoded))
  then ret self.

Definition finished (self : t) (error : option text) (now : Z) : M t :=
  let self := Make (uuid self) (started_at self) (Some now) error
                   (_options self) (_ports self) in
  do with_db
       (do execute (update_finished (uuid self) now error)
        then do execute (delete_attributes (uuid self))
        then execute (delete_options (uuid self)))
  then ret self.

(** [database] tells whether a connection was passed in. *)
Definition add_attribute (self : t) (name : string) (value : lookup_value)
    (database : bool) : M unit :=
  let value := as_list value in
  _maybe_db database
    (try_except
       (executemany
          (λ v, execute_insert (insert_attribute name v (uuid self))) value)
       (λ exc,
          match exc with
          | IntegrityError =>
              do LOG ERROR
                   (Text "Database integrity error %s during adding attributes"
                         [ArgText (str exc)])
              then raise (already_on_introspection name value)
          | _ => raise exc
          end)).

(** The keys of the [ports] dictionary (MAC -> port); the dictionary is
    cached in the handle. *)
Definition ports (self : t) (ironic : ironic_client) : M (list string * t) :=
  match _ports self with
  | Some p => ret (p, self)
  | None =>
      let* l := call (node_list_ports ironic (uuid self)) in
      let p := remove_dups l in
      ret (p, with_ports self p)
  end.

(** [NodeInfo.from_row(row)] *)
Definition from_row (row : node_row) : t :=
  Make (row_uuid row) (row_started_at row) (row_finished_at row)
       (row_error row) None None.

End NodeInfo.

(** The body of the loop of [add_node]. *)
Definition add_node_step (node_info : NodeInfo.t) (_ : unit)
    (item : string * option lookup_value) : M unit :=
  if is_empty (snd item) then ret tt
  else match snd item with
       | Some value =>
           NodeInfo.add_attribute node_info (fst item) value true
       | None => ret tt
       end.

Definition add_node (uuid : string) (attributes : kwargs) (started_at : Z)
    : M NodeInfo.t :=
  with_db
    (do execute (delete_node uuid)
     then do execute (delete_attributes uuid)
     then do execute (delete_options uuid)
     then do execute_insert (insert_node uuid started_at)
     then
       let node_info := NodeInfo.new uuid started_at in
       do for_loop attributes (add_node_step node_info) tt
       then ret node_info).

(** [select value from attributes where name=?], as a set. *)
Definition active_macs : M (gset string) :=
  let* d := get_db in
  ret (list_to_set
         (attr_value <$>
            filter (λ a, attr_name a = MACS_ATTRIBUTE) (attributes_table d))).

Definition get_node (uuid : string) : M NodeInfo.t :=
  let* d := get_db in
  match filter (λ r, row_uuid r = uuid) (nodes_table d) with
  | [] => raise (Error (Text "Could not find node %s in cache" [ArgStr uuid]) 404)
  | row :: _ => ret (NodeInfo.from_row row)
  end.

(** [select distinct uuid from attributes where name=? AND value=? OR ...],
    one disjunct per element of [value]. *)
Definition select_distinct_uuid (name : string) (value : list string) (d : DB)
    : list string :=
  remove_dups
    (attr_uuid <$>
       filter (λ a, attr_name a = name ∧ attr_value a ∈ value)
              (attributes_table d)).

(** Order of [sorted(attributes.items())]: by name (names are the keys of a
    dictionary, so no two items share one). *)
Definition item_le (x y : string * option lookup_value) : Prop :=
  String.leb (fst x) (fst y) = true.

#[global] Instance item_le_dec x y : Decision (item_le x y).
Proof. unfold item_le. apply _. Defined.

Definition sorted_items (attributes : kwargs) : kwargs :=
  merge_sort item_le attributes.

(** Truth value of a nullable [real] column: NULL and 0.0 are false. *)
Definition column_truthy (c : option Z) : bool :=
  match c with
  | None => false
  | Some t => negb (Z.eqb t 0)
  end.

(** The body of the loop of [find_node]. *)
Definition find_node_step (found : gset string)
    (item : string * option lookup_value) : M (gset string) :=
  let name := fst item in
  if is_empty (snd item) then
    do LOG DEBUG (Text "Empty value for attribute %s" [ArgStr name])
    then ret found
  else
    match snd item with
    | None => ret found
    | Some value =>
        let value := as_list value in
        do LOG DEBUG (Text "Trying to use %s of value %s for node look up"
                           [ArgStr name; ArgList value])
        then
          let* d := get_db in
          let rows := select_distinct_uuid name value d in
          match rows with
          | [] => ret found
          | _ => ret (found ∪ list_to_set rows)
          end
    end.

Definition find_node (attributes : kwargs) : M NodeInfo.t :=
  let* found := for_loop (sorted_items attributes) find_node_step (∅ : gset string) in
  if decide (size found = 0) then
    raise (could_not_find_a_node attributes)
  else if decide (1 < size found) then
    raise (multiple_matching_nodes attributes (elements found))
  else
    match elements found with
    | [] => raise (OtherException (Lit "KeyError"))   (* found.pop() *)
    | uuid :: _ =>
        let* d := get_db in
        match filter (λ r, row_uuid r = uuid) (nodes_table d) with
        | [] => raise (not_in_introspection_cache uuid)
        | row :: _ =>
            if column_truthy (row_finished_at row) then
              raise (already_finished uuid (default 0%Z (row_finished_at row)))
            else ret (NodeInfo.new uuid (row_started_at row))
        end
    end.

(** [where finished_at < ?]; the comparison is not true of a NULL. *)
Definition finished_before (threshold : Z) (r : node_row) : Prop :=
  match row_finished_at r with
  | Some f => (f < threshold)%Z
  | None => False
  end.

#[global] Instance finished_before_dec threshold r :
  Decision (finished_before threshold r).
Proof. unfold finished_before. destruct (row_finished_at r); apply _. Defined.

(** [delete from nodes where finished_at < ?] *)
Definition delete_finished_before (threshold : Z) (d : DB) : DB :=
  set_nodes d (filter (λ r, ¬ finished_before threshold r) (nodes_table d)).

(** [where started_at < ? and finished_at is null] *)
Definition timed_out (threshold : Z) (r : node_row) : Prop :=
  (row_started_at r < threshold)%Z ∧ row_finished_at r = None.

#[global] Instance timed_out_dec threshold r : Decision (timed_out threshold r).
Proof. unfold timed_out. apply _. Defined.

(** [update nodes set finished_at=?, error=? where started_at < ? and
    finished_at is null] *)
Definition update_timed_out (now : Z) (err : text) (threshold : Z) (d : DB) : DB :=
  set_nodes d
    ((λ r, if decide (timed_out threshold r)
           then NodeRow (row_uuid r) (row_started_at r) (Some now) (Some err)
           else r) <$> nodes_table d).

(** [now1], [now2] and [now3] are the three readings of [time.time()], in
    the order the function takes them. *)
Definition clean_up (CONF : config) (now1 now2 now3 : Z) : M (list string) :=
  let status_keep_threshold := (now1 - node_status_keep_time CONF)%Z in
  do with_db (execute (delete_finished_before status_keep_threshold))
  then
    let timeout := timeout CONF in
    if decide (timeout ≤ 0)%Z then ret []
    else
      let threshold := (now2 - timeout)%Z in
      with_db
        (let* d := get_db in
         let uuids := row_uuid <$> filter (timed_out threshold) (nodes_table d) in
         match uuids with
         | [] => ret []
         | _ =>
             do LOG ERROR (Text "Introspection for nodes %s has timed out"
                                [ArgList uuids])
             then do execute (update_timed_out now3 (Lit "Introspection timeout")
                                               threshold)
             then do executemany (λ u, execute (delete_attributes u)) uuids
             then do executemany (λ u, execute (delete_options u)) uuids
             then ret uuids
         end).

(** ** introspect.py *)

(** [string.ascii_letters + string.digits] *)
Definition PASSWORD_ACCEPTED_CHARS : list Ascii.ascii :=
  String.list_ascii_of_string
    "abcdefghijklmnopqrstuvwxyzABCDEFGHIJKLMNOPQRSTUVWXYZ0123456789".

Definition PASSWORD_MAX_LENGTH : nat := 20.

Definition dquote : string := String (Ascii.ascii_of_nat 34) EmptyString.

Definition _validate_ipmi_credentials (CONF : config) (node : node)
    (new_ipmi_credentials : string * string) : exn + (string * string) :=
  if negb (enable_setting_ipmi_credentials CONF) then
    inl (Error (Lit "IPMI credentials setup is disabled in configuration")
               default_code)
  else if negb (maintenance node) then
    inl (Error (Lit "Node should be in maintenance mode to set IPMI credentials on it")
               default_code)
  else
    let new_username := fst new_ipmi_credentials in
    let new_password := snd new_ipmi_credentials in
    let new_username :=
      if String.eqb new_username EmptyString
      then default EmptyString (driver_info node !! "ipmi_username")
      else new_username in
    if String.eqb new_username EmptyString then
      inl (Error
             (Text "Setting IPMI credentials requested for node %s, but neither new user name nor driver_info[ipmi_username] are provided"
                   [ArgStr (node_uuid node)])
             default_code)
    else
      let wrong_chars :=
        remove_dups
          (filter (λ c, c ∉ PASSWORD_ACCEPTED_CHARS)
                  (String.list_ascii_of_string new_password)) in
      match wrong_chars with
      | _ :: _ =>
          inl (Error
                 (Text ("Forbidden characters encountered in new IPMI password for node %(node)s: "
                        +:+ dquote +:+ "%(chars)s" +:+ dquote
                        +:+ "; use only letters and numbers")
                       [ArgStr (node_uuid node);
                        ArgStr (String.string_of_list_ascii wrong_chars)])
                 default_code)
      | [] =>
          if bool_decide ((0 < String.length new_password)%nat
                          ∧ (String.length new_password ≤ PASSWORD_MAX_LENGTH)%nat)
          then inr (new_username, new_password)
          else inl (Error (Text "IPMI password length should be > 0 and <= %d"
                                [ArgTime (Z.of_nat PASSWORD_MAX_LENGTH)])
                          default_code)
      end.

(** The warning and the errors of the background task, with the text of
    the source. *)

Definition failed_to_set_boot_device (uuid : string) (exc : exn) : text :=
  Text "Failed to set boot device to PXE for node %(node)s: %(exc)s"
       [ArgStr uuid; ArgText (str exc)].

Definition failed_to_power_on (uuid : string) (exc : exn) : exn :=
  Error
    (Text "Failed to power on node %(node)s, check it's power management configuration:
%(exc)s"
          [ArgStr uuid; ArgText (str exc)])
    default_code.

Definition unexpected_exception : text :=
  Lit "Unexpected exception in background introspection thread".

Definition started_successfully (uuid : string) : text :=
  Text "Introspection started successfully for node %s" [ArgStr uuid].

Section Introspect.

(** Helpers of [ironic_inspector.utils] and [ironic_inspector.firewall],
    known by their outcomes. *)
Variable check_provision_state : node → option exn.
Variable get_ipmi_address : node → option string.
Variable update_filters : ironic_client → option exn.

Variable CONF : config.

(** The option value for the credentials: [None] or the tuple. *)
Definition credentials_obj (c : option (string * string)) : pyobj :=
  match c with
  | None => PyNone
  | Some (username, password) => PyTuple [PyStr username; PyStr password]
  end.

(** Lines 117-123: register the MAC's and update the firewall. *)
Definition whitelist_macs (ironic : ironic_client) (node_info : NodeInfo.t)
    : M NodeInfo.t :=
  let* r := NodeInfo.ports node_info ironic in
  let macs := fst r in
  let node_info := snd r in
  match macs with
  | [] => ret node_info
  | _ =>
      do NodeInfo.add_attribute node_info MACS_ATTRIBUTE (Many macs) false
      then do LOG INFO
                (Text "Whitelisting MAC's %(macs)s for node %(node)s on the firewall"
                      [ArgList macs; ArgStr (NodeInfo.uuid node_info)])
      then do call_ (update_filters ironic)
      then ret node_info
  end.

(** Lines 126-143: the branch taken without new credentials. *)
Definition power_on (ironic : ironic_client) (node_info : NodeInfo.t)
    : M unit :=
  let uuid := NodeInfo.uuid node_info in
  do try_except
       (call_ (node_set_boot_device ironic uuid))
       (λ exc, LOG WARNING (failed_to_set_boot_device uuid exc))
  then do try_except
       (call_ (node_set_power_state ironic uuid))
       (λ exc, raise (failed_to_power_on uuid exc))
  then LOG INFO (started_successfully uuid).

Definition _background_introspect (ironic : ironic_client)
    (node_info : NodeInfo.t) : M unit :=
  let* node_info := whitelist_macs ironic node_info in
  let* r := NodeInfo.options node_info in
  let options := fst r in
  let node_info := snd r in
  if negb (truthy (default PyNone (options !! "new_ipmi_credentials"))) then
    power_on ironic node_info
  else
    LOG INFO
      (Text "Introspection environment is ready for node %(node)s, manual power on is required within %(timeout)d seconds"
            [ArgStr (NodeInfo.uuid node_info); ArgTime (timeout CONF)]).

(** The closure given to [utils.spawn_n]; [now] is the reading of
    [time.time()] in [finished].  [finished] reads nothing of the handle
    but its [uuid], so the caches the task may have filled before it raised
    are not carried over to the handler. *)
Definition _handle_exceptions (ironic : ironic_client)
    (node_info : NodeInfo.t) (now : Z) : M unit :=
  try_except
    (_background_introspect ironic node_info)
    (λ exc,
       if is_utils_Error exc then
         do NodeInfo.finished node_info (Some (str exc)) now then ret tt
       else
         let msg := unexpected_exception in
         do LOG ERROR msg
         then do NodeInfo.finished node_info (Some msg) now then ret tt).

(** The synchronous part of [introspect]; it returns the handle with
    which [_handle_exceptions] is spawned.  [now] is the reading of
    [time.time()] in [add_node]. *)
Definition introspect (ironic : ironic_client) (uuid : string)
    (new_ipmi_credentials : option (string * string)) (now : Z)
    : M NodeInfo.t :=
  let* node :=
    try_except
      (call (node_get ironic uuid))
      (λ exc,
         match exc with
         | NotFound _ =>
             raise (Error (Text "Cannot find node %s" [ArgStr uuid]) 404)
         | HttpError _ =>
             raise (Error (Text "Cannot get node %(node)s: %(exc)s"
                                [ArgStr uuid; ArgText (str exc)])
                          default_code)
         | _ => raise exc
         end) in
  do call_ (check_provision_state node)
  then
    let* new_ipmi_credentials :=
      match new_ipmi_credentials with
      | Some c =>
          let* c' := call (_validate_ipmi_credentials CONF node c) in
          ret (Some c')
      | None =>
          let* validation := call (node_validate ironic (node_uuid node)) in
          if negb (power_result validation) then
            raise (Error
                     (Text "Failed validation of power interface for node %(node)s, reason: %(reason)s"
                           [ArgStr (node_uuid node);
                            ArgStr (power_reason validation)])
                     default_code)
          else ret None
      end in
    let bmc_address :=
      match get_ipmi_address node with
      | Some a => Some (Single a)
      | None => None
      end in
    let* node_info :=
      add_node (node_uuid node) [("bmc_address", bmc_address)] now in
    NodeInfo.set_option node_info "new_ipmi_credentials"
                        (credentials_obj new_ipmi_credentials).

End Introspect.

(** ** Example stores *)

Definition store_empty : world := World (MkDB [] [] []) [].

(** Session [u1], active, with a management address and one MAC. *)
Definition store_one : world :=
  World
    (MkDB [NodeRow "u1" 10 None None]
          [AttributeRow "bmc_address" "1.2.3.4" "u1";
           AttributeRow "mac" "aa" "u1"]
          [])
    [].

(** An attribute row whose session has no row in [nodes]: what
    [add_attribute] on a handle leaves when the row of the handle was
    purged, or never inserted. *)
Definition store_dangling : world :=
  World (MkDB [] [AttributeRow "mac" "aa" "u1"] []) [].

(** Session [u1] as [introspect] without new credentials leaves it. *)
Definition store_created : world :=
  World
    (MkDB [NodeRow "u1" 10 None None]
          [AttributeRow "bmc_address" "1.2.3.4" "u1"]
          [OptionRow "u1" "new_ipmi_credentials" JNull])
    [].

(** Two active sessions, [u1] started long ago and [u2] a moment ago. *)
Definition store_two : world :=
  World
    (MkDB [NodeRow "u1" 10 None None; NodeRow "u2" 96 None None]
          [AttributeRow "mac" "aa" "u1"; AttributeRow "mac" "bb" "u2"]
          [])
    [].

(** Session [u1] after the sweep has timed it out. *)
Definition store_timed_out : world :=
  World
    (MkDB [NodeRow "u1" 10 (Some 101%Z) (Some (Lit "Introspection timeout"))]
          [] [])
    [].

(** A node in maintenance mode whose driver knows a user name. *)
Definition node_in_maintenance : node :=
  Node "u1" true {[ "ipmi_username" := "admin" ]}.

(** A control plane where every call succeeds; the node has two ports. *)
Definition ironic_ok : ironic_client :=
  Ironic (λ _, inr node_in_maintenance)
         (λ _, inr (Validation true EmptyString))
         (λ _, inr ["aa"; "bb"])
         (λ _, None)
         (λ _, None).

(** The same, but the boot device cannot be set. *)
Definition ironic_no_boot_device : ironic_client :=
  Ironic (λ _, inr node_in_maintenance)
         (λ _, inr (Validation true EmptyString))
         (λ _, inr ["aa"; "bb"])
         (λ _, Some (OtherException (Lit "boot device")))
         (λ _, None).

(** The same, but the power state cannot be set. *)
Definition ironic_no_power : ironic_client :=
  Ironic (λ _, inr node_in_maintenance)
         (λ _, inr (Validation true EmptyString))
         (λ _, inr ["aa"; "bb"])
         (λ _, None)
         (λ _, Some (OtherException (Lit "power"))).

(** ** Vocabulary of the properties *)

Definition attr_key (a : attribute_row) : string * string :=
  (attr_name a, attr_value a).

Definition opt_key (o : option_row) : string * string :=
  (opt_uuid o, opt_name o).

(** The primary key constraints of the schema. *)
Record db_ok (d : DB) : Prop := {
  ok_nodes : NoDup (row_uuid <$> nodes_table d);
  ok_attributes : NoDup (attr_key <$> attributes_table d);
  ok_options : NoDup (opt_key <$> options_table d)
}.

(** The rows that [add_attribute] inserts. *)
Definition new_attributes (name u : string) (values : list string)
    : list attribute_row :=
  (λ v, AttributeRow name v u) <$> values.

Ltac monad_unfold :=
  unfold bind, ret, raise, try_except, with_db, _maybe_db, execute,
    execute_insert, get_db, LOG, call, call_ in *.

(** [u] is a candidate for the criteria: some attribute row of session [u]
    carries one of the values listed under some name with a non-empty
    value. *)
Definition matches (d : DB) (attributes : kwargs) (u : string) : Prop :=
  ∃ name value a,
    (name, Some value) ∈ attributes
    ∧ is_empty (Some value) = false
    ∧ a ∈ attributes_table d
    ∧ attr_name a = name
    ∧ attr_value a ∈ as_list value
    ∧ attr_uuid a = u.

(** The candidates one criterion contributes. *)
Definition item_candidates (d : DB) (item : string * option lookup_value)
    : gset string :=
  if is_empty (snd item) then ∅
  else match snd item with
       | Some value =>
           list_to_set (select_distinct_uuid (fst item) (as_list value) d)
       | None => ∅
       end.

(** The union over the criteria. *)
Definition candidates (d : DB) (attributes : kwargs) : gset string :=
  ⋃ (item_candidates d <$> attributes).

Ltac by_computation := apply (bool_decide_unpack _); vm_compute; exact I.

(** The attribute rows [add_node] attaches: one per value of every
    non-empty initial attribute. *)
Definition item_attributes (u : string) (item : string * option lookup_value)
    : list attribute_row :=
  if is_empty (snd item) then []
  else match snd item with
       | Some value => new_attributes (fst item) u (as_list value)
       | None => []
       end.

Definition initial_attributes (u : string) (attributes : kwargs)
    : list attribute_row :=
  mjoin (item_attributes u <$> attributes).

(** Row [a] is one the new session [u] claims with its initial
    attributes. *)
Definition claims (u : string) (attributes : kwargs) (a : attribute_row) : Prop :=
  ∃ name value,
    (name, Some value) ∈ attributes
    ∧ is_empty (Some value) = false
    ∧ attr_name a = name
    ∧ attr_value a ∈ as_list value
    ∧ attr_uuid a = u.

(** The row is finished and its [finished_at] is older than the retention
    time. *)
Definition expired (CONF : config) (now : Z) : node_row → Prop :=
  finished_before (now - node_status_keep_time CONF).

(** The row is active and its [started_at] is older than the timeout. *)
Definition stale (CONF : config) (now : Z) : node_row → Prop :=
  timed_out (now - timeout CONF).

(** The row once the sweep has timed it out. *)
Definition force_finished (now : Z) (row : node_row) : node_row :=
  NodeRow (row_uuid row) (row_started_at row) (Some now)
          (Some (Lit "Introspection timeout")).

(** The ids the sweep times out. *)
Definition timed_out_ids (CONF : config) (now : Z) (d : DB) : list string :=
  if decide (0 < timeout CONF)%Z
  then row_uuid <$> filter (stale CONF now) (nodes_table d)
  else [].

Definition sweep_row (CONF : config) (now2 now3 : Z) (row : node_row) : node_row :=
  if decide ((0 < timeout CONF)%Z ∧ stale CONF now2 row)
  then force_finished now3 row
  else row.

(** The database after the sweep. *)
Definition sweep (CONF : config) (now1 now2 now3 : Z) (d : DB) : DB :=
  MkDB (sweep_row CONF now2 now3
          <$> filter (λ row, ¬ expired CONF now1 row) (nodes_table d))
       (filter (λ a, attr_uuid a ∉ timed_out_ids CONF now2 d) (attributes_table d))
       (filter (λ o, opt_uuid o ∉ timed_out_ids CONF now2 d) (options_table d)).

(** An ASCII letter or digit, by its code. *)
Definition is_alnum (c : Ascii.ascii) : bool :=
  let n := Ascii.nat_of_ascii c in
  (Nat.leb 48 n && Nat.leb n 57)
  || (Nat.leb 65 n && Nat.leb n 90)
  || (Nat.leb 97 n && Nat.leb n 122).

(** The password is made of letters and digits only. *)
Definition alphanumeric (password : string) : Prop :=
  Forall (λ c, is_alnum c = true) (String.list_ascii_of_string password).

(** The user name the credentials resolve to: the one given, or else the
    one of [driver_info]. *)
Definition resolved_username (node : node) (username : string) : string :=
  if String.eqb username EmptyString
  then default EmptyString (driver_info node !! "ipmi_username")
  else username.

(** The text recorded for an exception of the task. *)
Definition recorded_error (exc : exn) : text :=
  if is_utils_Error exc then str exc else unexpected_exception.

(** The options of session [u] as a handle without a cache reads them. *)
Definition stored_options (d : DB) (u : string) : gmap string pyobj :=
  NodeInfo.options_dict (filter (λ r, opt_uuid r = u) (options_table d)).

(** No session but [u] holds one of the rows [rows] would insert. *)
Definition free_for (d : DB) (u : string) (rows : list attribute_row) : Prop :=
  ∀ a a', a ∈ rows → a' ∈ attributes_table d →
          attr_key a' = attr_key a → attr_uuid a' = u.

(** The error of [get_node]. *)
Definition not_in_cache (uuid : string) : exn :=
  Error (Text "Could not find node %s in cache" [ArgStr uuid]) 404.

(** A control plane that knows node [u2], not in maintenance mode. *)
Definition ironic_other : ironic_client :=
  Ironic (λ _, inr (Node "u2" false ∅))
         (λ _, inr (Validation true EmptyString))
         (λ _, inr [])
         (λ _, None)
         (λ _, None).

(** The attribute row [introspect] creates the session with: the
    management address, unless the node has none. *)
Definition bmc_attributes (uuid : string) (address : option string)
    : list attribute_row :=
  match address with
  | Some a =>
      if String.eqb a EmptyString then []
      else [AttributeRow "bmc_address" a uuid]
  | None => []
  end.

(** The prechecks of [introspect] on the credentials pass. *)
Definition prechecks_pass (CONF : config) (ironic : ironic_client) (node : node)
    (credentials : option (string * string)) : Prop :=
  match credentials with
  | Some c => ∃ c', _validate_ipmi_credentials CONF node c = inr c'
  | None => ∃ v, node_validate ironic (node_uuid node) = inr v
                 ∧ power_result v = true
  end.

(** The errors of the validation of a password, with the text of the
    source. *)
Definition forbidden_characters (uuid : string) (chars : list Ascii.ascii) : exn :=
  Error
    (Text ("Forbidden characters encountered in new IPMI password for node %(node)s: "
           +:+ dquote +:+ "%(chars)s" +:+ dquote
           +:+ "; use only letters and numbers")
          [ArgStr uuid; ArgStr (String.string_of_list_ascii chars)])
    default_code.

Definition wrong_password_length : exn :=
  Error (Text "IPMI password length should be > 0 and <= %d"
              [ArgTime (Z.of_nat PASSWORD_MAX_LENGTH)])
        default_code.

(** The log entry of the branch taken with new credentials. *)
Definition manual_power_on_required (CONF : config) (uuid : string) : text :=
  Text "Introspection environment is ready for node %(node)s, manual power on is required within %(timeout)d seconds"
       [ArgStr uuid; ArgTime (timeout CONF)].

(** What [finished] makes of the database [d], in [d']: every row of
    session [u] has [finished_at] set to [now] and carries the error [err],
    with the [started_at] it had; the rows of the other sessions are as they
    were; the attribute and option rows of [u] are gone and those of the
    other sessions kept. *)
Definition session_finished (d d' : DB) (u : string) (now : Z)
    (err : option text) : Prop :=
  (∀ row, row ∈ nodes_table d → row_uuid row = u →
     NodeRow u (row_started_at row) (Some now) err ∈ nodes_table d')
  ∧ (∀ row', row' ∈ nodes_table d' → row_uuid row' = u →
       row_finished_at row' = Some now ∧ row_error row' = err)
  ∧ (∀ row', row_uuid row' ≠ u →
       row' ∈ nodes_table d' ↔ row' ∈ nodes_table d)
  ∧ (∀ a, a ∈ attributes_table d' ↔ a ∈ attributes_table d ∧ attr_uuid a ≠ u)
  ∧ (∀ o, o ∈ options_table d' ↔ o ∈ options_table d ∧ opt_uuid o ≠ u).

(** * Properties *)

(** ** Inserting attributes *)

Lemma insert_attribute_Some name v u d d' :
  insert_attribute name v u d = Some d' →
  ((name, v) ∉ (attr_key <$> attributes_table d))
  ∧ d' = set_attributes d (attributes_table d ++ [AttributeRow name v u]).
Proof.
  unfold insert_attribute. fold attr_key.
  destruct (decide _) as [|Hn]; [discriminate|].
  intros [= <-]. done.
Qed.

Lemma insert_attribute_None name v u d :
  insert_attribute name v u d = None ↔
  (name, v) ∈ (attr_key <$> attributes_table d).
Proof.
  unfold insert_attribute. fold attr_key.
  destruct (decide _); split; intros; done.
Qed.

(** What [executemany] of the insert leaves behind: on success every row,
    on failure the rows before the offending one. *)
Lemma executemany_insert_inv name u values w r w' :
  executemany (λ v, execute_insert (insert_attribute name v u)) values w = (r, w') →
  log w' = log w
  ∧ nodes_table (db w') = nodes_table (db w)
  ∧ options_table (db w') = options_table (db w)
  ∧ match r with
    | inr _ =>
        attributes_table (db w') =
          attributes_table (db w) ++ new_attributes name u values
        ∧ NoDup values
        ∧ ∀ v, v ∈ values → (name, v) ∉ (attr_key <$> attributes_table (db w))
    | inl e =>
        e = IntegrityError
        ∧ ∃ done, done `prefix_of` values
            ∧ attributes_table (db w') =
                attributes_table (db w) ++ new_attributes name u done
    end.
Proof.
  revert w. induction values as [|v vs IH]; intros w; simpl.
  - monad_unfold. intros [= <- <-]. rewrite app_nil_r.
    repeat split; auto using NoDup_nil_2. intros v Hv. by apply elem_of_nil in Hv.
  - monad_unfold.
    destruct (insert_attribute name v u (db w)) as [d|] eqn:Hins.
    + apply insert_attribute_Some in Hins as [Hfresh ->].
      intros Hrun. apply IH in Hrun as (Hlog & Hn & Ho & Hr). simpl in *.
      repeat split; try done.
      destruct r as [e|[]].
      * destruct Hr as [-> (done & Hpre & Heq)]. split; [done|].
        exists (v :: done). split; [by apply prefix_cons|].
        rewrite Heq. unfold new_attributes. simpl. by rewrite <- app_assoc.
      * destruct Hr as (Heq & Hnd & Hfr). split; [|split].
        -- rewrite Heq. unfold new_attributes. simpl. by rewrite <- app_assoc.
        -- apply NoDup_cons. split; [|done]. intros Hin.
           apply (Hfr v Hin). rewrite fmap_app. apply elem_of_app. right.
           simpl. apply list_elem_of_singleton. done.
        -- intros v' [->|Hin]%elem_of_cons; [done|].
           intros Hk. apply (Hfr v' Hin). rewrite fmap_app.
           apply elem_of_app. by left.
    + intros [= <- <-]. repeat split; try done.
      exists []. split; [apply prefix_nil|]. by rewrite app_nil_r.
Qed.

(** A value already in the table, or listed twice, makes [executemany]
    raise. *)
Lemma executemany_insert_conflict name u values w :
  (∃ v, v ∈ values ∧ (name, v) ∈ (attr_key <$> attributes_table (db w))) →
  ∃ w', executemany (λ v, execute_insert (insert_attribute name v u)) values w
        = (inl IntegrityError, w').
Proof.
  intros (v & Hv & Hk).
  destruct (executemany _ values w) as [r w'] eqn:Hrun.
  apply executemany_insert_inv in Hrun as (_ & _ & _ & Hr).
  destruct r as [e|[]].
  - destruct Hr as [-> _]. by exists w'.
  - destruct Hr as (_ & _ & Hfr). by destruct (Hfr v Hv).
Qed.

(** [add_attribute] in full: what it returns and what it leaves in the
    database. *)
Lemma add_attribute_inv self name value database w r w' :
  NodeInfo.add_attribute self name value database w = (r, w') →
  nodes_table (db w') = nodes_table (db w)
  ∧ options_table (db w') = options_table (db w)
  ∧ match r with
    | inr _ =>
        attributes_table (db w') =
          attributes_table (db w)
            ++ new_attributes name (NodeInfo.uuid self) (as_list value)
        ∧ NoDup (as_list value)
        ∧ (∀ v, v ∈ as_list value →
             (name, v) ∉ (attr_key <$> attributes_table (db w)))
        ∧ log w' = log w
    | inl e =>
        e = already_on_introspection name (as_list value)
        ∧ (database = false → db w' = db w)
    end.
Proof.
  intros Hadd.
  destruct (executemany
              (λ v, execute_insert (insert_attribute name v (NodeInfo.uuid self)))
              (as_list value) w) as [r0 w0] eqn:Hrun.
  pose proof (executemany_insert_inv _ _ _ _ _ _ Hrun) as (Hlog & Hn & Ho & Hr).
  unfold NodeInfo.add_attribute, _maybe_db, with_db, try_except in Hadd.
  destruct database; cbv beta zeta in Hadd; rewrite Hrun in Hadd;
    (destruct r0 as [e|[]];
     [ destruct Hr as [-> _]; monad_unfold; simpl in Hadd
     | destruct Hr as (Ha & Hnd & Hfr) ]);
    injection Hadd as <- <-; simpl; repeat split; auto; done.
Qed.

(** C2.  [add_attribute] called with a name and values of which some
    [(name, value)] pair is already in the attributes table, whichever
    session holds it, raises the error that names the attribute and the
    values, and leaves the whole database as it was: no row of the call is
    kept. *)
Theorem add_attribute_duplicate_rejected self name value w :
  (∃ v, v ∈ as_list value
        ∧ (name, v) ∈ (attr_key <$> attributes_table (db w))) →
  ∃ w',
    NodeInfo.add_attribute self name value false w
    = (inl (already_on_introspection name (as_list value)), w')
    ∧ db w' = db w.
Proof.
  intros Hdup.
  destruct (NodeInfo.add_attribute self name value false w) as [r w'] eqn:Hrun.
  pose proof Hrun as Hinv.
  apply add_attribute_inv in Hinv as (_ & _ & Hr).
  destruct r as [e|[]].
  - destruct Hr as [-> Hdb]. exists w'. split; [done|]. by apply Hdb.
  - destruct Hr as (_ & _ & Hfr & _). destruct Hdup as (v & Hv & Hk).
    by destruct (Hfr v Hv).
Qed.

(** ** Looking a node up by its attributes *)

Lemma elem_of_select_distinct_uuid name value d u :
  u ∈ select_distinct_uuid name value d ↔
  ∃ a, a ∈ attributes_table d ∧ attr_name a = name
       ∧ attr_value a ∈ value ∧ attr_uuid a = u.
Proof.
  unfold select_distinct_uuid.
  rewrite elem_of_remove_dups, list_elem_of_fmap. split.
  - intros (a & -> & Ha). apply list_elem_of_filter in Ha as [[Hn Hv] Ha]. eauto.
  - intros (a & Ha & Hn & Hv & <-). exists a. split; [done|].
    apply list_elem_of_filter. auto.
Qed.

Lemma elem_of_candidates d attributes u :
  u ∈ candidates d attributes ↔ matches d attributes u.
Proof.
  unfold candidates, matches. rewrite elem_of_union_list. split.
  - intros (X & HX & Hu). apply list_elem_of_fmap in HX as ([name value] & -> & Hitem).
    unfold item_candidates in Hu. simpl in Hu.
    destruct (is_empty value) eqn:He; [set_solver|].
    destruct value as [value|]; [|set_solver].
    apply elem_of_list_to_set, elem_of_select_distinct_uuid in Hu
      as (a & Ha & Hn & Hv & Hau).
    exists name, value, a. auto 10.
  - intros (name & value & a & Hitem & He & Ha & Hn & Hv & Hau).
    exists (item_candidates d (name, Some value)). split.
    + apply list_elem_of_fmap. eauto.
    + unfold item_candidates. simpl fst. simpl snd. rewrite He.
      apply elem_of_list_to_set, elem_of_select_distinct_uuid. eauto.
Qed.

(** One turn of the loop adds the candidates of its criterion and leaves
    the database alone. *)
Lemma find_node_step_spec found item w :
  ∃ w', find_node_step found item w = (inr (found ∪ item_candidates (db w) item), w')
        ∧ db w' = db w.
Proof.
  unfold find_node_step, item_candidates. destruct item as [name value]. simpl.
  destruct (is_empty value) eqn:He.
  - rewrite union_empty_r_L. monad_unfold. eexists. split; reflexivity.
  - destruct value as [value|]; [|discriminate].
    monad_unfold. simpl.
    destruct (select_distinct_uuid name (as_list value) (db w)) eqn:Hrows.
    + simpl. rewrite union_empty_r_L. eexists. split; reflexivity.
    + eexists. split; reflexivity.
Qed.

Lemma find_node_loop_spec items found w :
  ∃ w', for_loop items find_node_step found w
        = (inr (found ∪ candidates (db w) items), w')
        ∧ db w' = db w.
Proof.
  revert found w. induction items as [|item items IH]; intros found w;
    cbn [for_loop].
  - exists w. split; [|done]. unfold ret, candidates. simpl.
    by rewrite union_empty_r_L.
  - unfold bind.
    destruct (find_node_step_spec found item w) as (w1 & -> & Hdb1).
    destruct (IH (found ∪ item_candidates (db w) item) w1) as (w2 & -> & Hdb2).
    exists w2. split; [|congruence].
    rewrite Hdb1. unfold candidates. simpl. by rewrite (assoc_L (∪)).
Qed.

(** Sorting the criteria does not change the union. *)
Lemma candidates_sorted d attributes :
  candidates d (sorted_items attributes) = candidates d attributes.
Proof.
  apply set_eq. intros u. rewrite !elem_of_candidates. unfold matches.
  assert (Hperm : sorted_items attributes ≡ₚ attributes)
    by apply merge_sort_Permutation.
  split; intros (name & value & a & Hitem & Hrest);
    exists name, value, a; (split; [|done]).
  - by rewrite <- Hperm.
  - by rewrite Hperm.
Qed.

Lemma NoDup_fmap_elem_inj {A B} (f : A → B) (l : list A) x y :
  NoDup (f <$> l) → x ∈ l → y ∈ l → f x = f y → x = y.
Proof.
  induction l as [|a l IH]; simpl; intros Hnd Hx Hy Hf.
  - by apply elem_of_nil in Hx.
  - apply NoDup_cons in Hnd as [Ha Hnd].
    apply elem_of_cons in Hx as [->|Hx]; apply elem_of_cons in Hy as [->|Hy];
      auto.
    + destruct Ha. rewrite Hf. apply list_elem_of_fmap. eauto.
    + destruct Ha. rewrite <- Hf. apply list_elem_of_fmap. eauto.
Qed.

(** [fetchone] of [select ... from nodes where uuid=?] *)
Lemma select_node_none d u :
  (∀ row, row ∈ nodes_table d → row_uuid row ≠ u) →
  filter (λ r, row_uuid r = u) (nodes_table d) = [].
Proof.
  intros Hno. destruct (filter _ _) as [|row rows] eqn:Hf; [done|].
  assert (Hin : row ∈ filter (λ r, row_uuid r = u) (nodes_table d))
    by (rewrite Hf; apply elem_of_cons; auto).
  apply list_elem_of_filter in Hin as [Hu Hin]. by destruct (Hno row Hin).
Qed.

Lemma select_node_some d row :
  db_ok d → row ∈ nodes_table d →
  ∃ rows, filter (λ r, row_uuid r = row_uuid row) (nodes_table d) = row :: rows.
Proof.
  intros Hok Hin.
  destruct (filter _ _) as [|row' rows] eqn:Hf.
  - assert (Hin' : row ∈ filter (λ r, row_uuid r = row_uuid row) (nodes_table d))
      by (apply list_elem_of_filter; auto).
    rewrite Hf in Hin'. by apply elem_of_nil in Hin'.
  - assert (Hin' : row' ∈ filter (λ r, row_uuid r = row_uuid row) (nodes_table d))
      by (rewrite Hf; apply elem_of_cons; auto).
    apply list_elem_of_filter in Hin' as [Hu Hin'].
    assert (row' = row) as ->
      by (eapply (NoDup_fmap_elem_inj row_uuid); eauto using ok_nodes).
    eauto.
Qed.

(** What [find_node] computes before it looks at the nodes table. *)
Lemma find_node_found attributes w :
  ∃ w1, for_loop (sorted_items attributes) find_node_step ∅ w
        = (inr (candidates (db w) attributes), w1)
        ∧ db w1 = db w.
Proof.
  destruct (find_node_loop_spec (sorted_items attributes) ∅ w) as (w1 & Hl & Hdb).
  exists w1. split; [|done].
  by rewrite Hl, union_empty_l_L, candidates_sorted.
Qed.

(** [find_node] never writes to the database. *)
Lemma find_node_reads_only attributes w :
  db (snd (find_node attributes w)) = db w.
Proof.
  unfold find_node, bind.
  destruct (find_node_found attributes w) as (w1 & -> & Hdb).
  repeat (case_decide; [done|]).
  destruct (elements _); [done|]. monad_unfold.
  destruct (filter _ _); [done|]. by destruct (column_truthy _).
Qed.

(** Without a candidate the look up fails. *)
Lemma find_node_no_candidate attributes w :
  (∀ u, ¬ matches (db w) attributes u) →
  fst (find_node attributes w) = inl (could_not_find_a_node attributes).
Proof.
  intros Hnone. unfold find_node, bind.
  destruct (find_node_found attributes w) as (w1 & -> & Hdb1).
  destruct (decide (size (candidates (db w) attributes) = 0)) as [|Hnz]; [done|].
  destruct Hnz. apply size_empty_iff. intros u. split.
  - intros Hu%elem_of_candidates. by destruct (Hnone u).
  - intros Hu. by apply elem_of_empty in Hu.
Qed.

(** C1, as the code has it.  The candidates are the union over the
    attribute names of the sessions holding one of the values listed under
    the name.  No candidate: the not-found error.  Several candidates: the
    error listing all of them.  One candidate: an error when the nodes table
    has no row for it, the already-finished error with the finish time when
    the row's [finished_at] is set to a non-zero time, and a handle with the
    row's [started_at] when [finished_at] is not set. *)
Theorem find_node_union attributes w :
  db_ok (db w) →
  ∃ r w',
    find_node attributes w = (r, w') ∧ db w' = db w
    ∧ ((∀ u, ¬ matches (db w) attributes u) →
       r = inl (could_not_find_a_node attributes))
    ∧ (∀ u1 u2,
         matches (db w) attributes u1 → matches (db w) attributes u2 →
         u1 ≠ u2 →
         ∃ ids, r = inl (multiple_matching_nodes attributes ids)
                ∧ NoDup ids ∧ ∀ u, u ∈ ids ↔ matches (db w) attributes u)
    ∧ (∀ u,
         matches (db w) attributes u →
         (∀ u', matches (db w) attributes u' → u' = u) →
         ((∀ row, row ∈ nodes_table (db w) → row_uuid row ≠ u) →
          r = inl (not_in_introspection_cache u))
         ∧ (∀ row, row ∈ nodes_table (db w) → row_uuid row = u →
              (∀ t, row_finished_at row = Some t → t ≠ 0%Z →
                    r = inl (already_finished u t))
              ∧ (row_finished_at row = None →
                 r = inr (NodeInfo.new u (row_started_at row))))).
Proof.
  intros Hok.
  destruct (find_node attributes w) as [r w'] eqn:Hfind.
  exists r, w'. split; [done|]. split.
  { pose proof (find_node_reads_only attributes w) as H. by rewrite Hfind in H. }
  pose proof (find_node_no_candidate attributes w) as Hnot_found.
  rewrite Hfind in Hnot_found. simpl in Hnot_found.
  unfold find_node, bind in Hfind.
  destruct (find_node_found attributes w) as (w1 & Hl & Hdb1).
  rewrite Hl in Hfind. clear Hl.
  set (C := candidates (db w) attributes) in *.
  assert (HC : ∀ u, u ∈ C ↔ matches (db w) attributes u)
    by (intros; apply elem_of_candidates).
  split; [|split].
  - done.
  - intros u1 u2 H1%HC H2%HC Hne.
    destruct (decide (size C = 0)) as [Hz|Hnz].
    { apply size_empty_iff in Hz. apply Hz in H1. by apply elem_of_empty in H1. }
    destruct (decide (1 < size C)) as [Hgt|Hle].
    + injection Hfind as <- <-. exists (elements C).
      split; [done|]. split; [apply NoDup_elements|].
      intros u. by rewrite elem_of_elements.
    + assert (size C = 1) as Hone by lia.
      destruct Hne. by apply (size_singleton_inv C).
  - intros u Hu%HC Huniq.
    assert (C = {[u]}) as HCu.
    { apply set_eq. intros u'. rewrite elem_of_singleton. split.
      - intros Hu'%HC. by apply Huniq.
      - by intros ->. }
    rewrite HCu in Hfind. rewrite size_singleton, elements_singleton in Hfind.
    simpl in Hfind. monad_unfold. rewrite Hdb1 in Hfind.
    split.
    + intros Hno. rewrite (select_node_none _ _ Hno) in Hfind.
      by injection Hfind as <- <-.
    + intros row Hin <-.
      destruct (select_node_some _ _ Hok Hin) as (rows & Hsel).
      rewrite Hsel in Hfind. split.
      * intros t Ht Hnz. rewrite Ht in Hfind. simpl in Hfind.
        destruct (Z.eqb_spec t 0); [done|]. by injection Hfind as <- <-.
      * intros Ht. rewrite Ht in Hfind. simpl in Hfind.
        by injection Hfind as <- <-.
Qed.

Lemma store_one_ok : db_ok (db store_one).
Proof. split; by_computation. Defined.

Lemma find_node_union_witness :
  fst (find_node [("mac", Some (Many ["aa"; "bb"])); ("bmc_address", None)]
                 store_one)
  = inr (NodeInfo.new "u1" 10).
Proof.
  destruct (find_node_union
              [("mac", Some (Many ["aa"; "bb"])); ("bmc_address", None)]
              store_one store_one_ok)
    as (r & w' & Hfind & _ & _ & _ & Hone).
  rewrite Hfind. simpl.
  refine (proj2 (proj2 (Hone "u1" _ _) (NodeRow "u1" 10 None None) _ _) _).
  - exists "mac", (Many ["aa"; "bb"]), (AttributeRow "mac" "aa" "u1").
    repeat split; by_computation.
  - intros u' (name & value & a & _ & _ & Ha & _ & _ & <-).
    simpl in Ha. apply elem_of_cons in Ha as [->|Ha]; [done|].
    apply elem_of_cons in Ha as [->|Ha]; [reflexivity|].
    apply elem_of_nil in Ha. destruct Ha.
  - apply elem_of_cons. by left.
  - reflexivity.
  - reflexivity.
Defined.

(** How [store_dangling] comes about: a session is created and finished,
    the sweep purges its row once the retention time has passed, and the
    handle, still held by a late task, registers a MAC. *)
Example store_dangling_reachable :
  let CONF := Config 100 5 true in
  let r1 := add_node "u1" [] 10 store_empty in
  let r2 := NodeInfo.finished (NodeInfo.new "u1" 10) None 20 (snd r1) in
  let r3 := clean_up CONF 500 500 501 (snd r2) in
  let r4 := NodeInfo.add_attribute (NodeInfo.new "u1" 10) "mac" (Single "aa")
                                   false (snd r3) in
  fst r4 = inr tt ∧ db (snd r4) = db store_dangling.
Proof. split; by vm_compute. Qed.

(** C1 as stated fails where the only candidate has no row in [nodes]: its
    [finished_at] is not set, yet no handle is returned; the look up fails
    with an error of its own. *)
Lemma find_node_without_row_counterexample :
  elements (candidates (db store_dangling) [("mac", Some (Single "aa"))]) = ["u1"]
  ∧ (∀ row, row ∈ nodes_table (db store_dangling) → row_finished_at row = None)
  ∧ fst (find_node [("mac", Some (Single "aa"))] store_dangling)
    = inl (not_in_introspection_cache "u1")
  ∧ ∀ h, fst (find_node [("mac", Some (Single "aa"))] store_dangling) ≠ inr h.
Proof.
  split; [by vm_compute|]. split.
  - intros row Hrow. by apply elem_of_nil in Hrow.
  - split; [by vm_compute|]. intros h. by vm_compute.
Qed.

Lemma add_attribute_duplicate_rejected_witness :
  ∃ w',
    NodeInfo.add_attribute (NodeInfo.new "u2" 11) "mac" (Many ["bb"; "aa"])
                           false store_one
    = (inl (already_on_introspection "mac" ["bb"; "aa"]), w')
    ∧ db w' = db store_one.
Proof.
  apply (add_attribute_duplicate_rejected
           (NodeInfo.new "u2" 11) "mac" (Many ["bb"; "aa"]) store_one).
  exists "aa". split; by_computation.
Defined.

(** ** Creating a session *)

Lemma NoDup_fmap_filter {A B} (f : A → B) (P : A → Prop)
    `{∀ x, Decision (P x)} (l : list A) :
  NoDup (f <$> l) → NoDup (f <$> filter P l).
Proof.
  intros Hnd. eapply sublist_NoDup; [exact Hnd|].
  apply fmap_sublist, sublist_filter.
Qed.

Lemma new_attributes_keys name u values :
  attr_key <$> new_attributes name u values = (λ v, (name, v)) <$> values.
Proof. unfold new_attributes. rewrite <- list_fmap_compose. done. Qed.

(** A successful [add_attribute] keeps the keys of the table distinct. *)
Lemma add_attribute_keeps_keys self name value database w w' :
  NodeInfo.add_attribute self name value database w = (inr tt, w') →
  NoDup (attr_key <$> attributes_table (db w)) →
  NoDup (attr_key <$> attributes_table (db w')).
Proof.
  intros Hadd Hnd.
  apply add_attribute_inv in Hadd as (_ & _ & Ha & Hvals & Hfresh & _).
  rewrite Ha, fmap_app, new_attributes_keys. apply NoDup_app. split; [done|]. split.
  - intros k Hk (v & -> & Hv)%list_elem_of_fmap. by apply (Hfresh v Hv).
  - apply NoDup_fmap_2; [|done]. by intros v1 v2 [= ->].
Qed.

Lemma add_node_loop_inv node_info attributes w r w' :
  for_loop attributes (add_node_step node_info) tt w = (r, w') →
  nodes_table (db w') = nodes_table (db w)
  ∧ options_table (db w') = options_table (db w)
  ∧ match r with
    | inr _ =>
        attributes_table (db w') =
          attributes_table (db w)
            ++ initial_attributes (NodeInfo.uuid node_info) attributes
        ∧ (NoDup (attr_key <$> attributes_table (db w)) →
           NoDup (attr_key <$> attributes_table (db w')))
    | inl e => ∃ name value, e = already_on_introspection name value
    end.
Proof.
  revert w. induction attributes as [|item items IH]; intros w; cbn [for_loop].
  - unfold ret. intros [= <- <-]. unfold initial_attributes. simpl.
    by rewrite app_nil_r.
  - unfold bind.
    destruct (add_node_step node_info tt item w) as [r1 w1] eqn:Hstep.
    assert (nodes_table (db w1) = nodes_table (db w)
            ∧ options_table (db w1) = options_table (db w)
            ∧ match r1 with
              | inr _ =>
                  attributes_table (db w1) =
                    attributes_table (db w)
                      ++ item_attributes (NodeInfo.uuid node_info) item
                  ∧ (NoDup (attr_key <$> attributes_table (db w)) →
                     NoDup (attr_key <$> attributes_table (db w1)))
              | inl e => ∃ name value, e = already_on_introspection name value
              end) as (Hn1 & Ho1 & Hr1).
    { unfold add_node_step, item_attributes in *.
      destruct (is_empty (snd item)).
      - unfold ret in Hstep. injection Hstep as <- <-. by rewrite app_nil_r.
      - destruct (snd item) as [value|].
        + pose proof Hstep as Hinv.
          apply add_attribute_inv in Hinv as (Hn & Ho & Hr).
          repeat split; try done. destruct r1 as [e|[]].
          * destruct Hr as [-> _]. eauto.
          * destruct Hr as (Ha & _). split; [done|].
            by eapply add_attribute_keeps_keys.
        + unfold ret in Hstep. injection Hstep as <- <-. by rewrite app_nil_r. }
    destruct r1 as [e|[]].
    + intros [= <- <-]. done.
    + intros Hrest. apply IH in Hrest as (Hn & Ho & Hr).
      destruct Hr1 as [Ha1 Hnd1].
      split; [congruence|]. split; [congruence|].
      destruct r as [e|[]]; [done|]. destruct Hr as [Ha Hnd]. split.
      * rewrite Ha, Ha1. unfold initial_attributes. simpl. by rewrite app_assoc.
      * auto.
Qed.

Lemma elem_of_initial_attributes u attributes a :
  a ∈ initial_attributes u attributes ↔ claims u attributes a.
Proof.
  unfold initial_attributes, claims. rewrite list_elem_of_join. split.
  - intros (l & Ha & Hl). apply list_elem_of_fmap in Hl as ([name value] & -> & Hitem).
    unfold item_attributes in Ha. simpl in Ha.
    destruct (is_empty value) eqn:He; [by apply elem_of_nil in Ha|].
    destruct value as [value|]; [|by apply elem_of_nil in Ha].
    apply list_elem_of_fmap in Ha as (v & -> & Hv).
    exists name, value. auto.
  - intros (name & value & Hitem & He & Hn & Hv & Hu).
    exists (item_attributes u (name, Some value)). split.
    + unfold item_attributes. simpl fst. simpl snd. rewrite He.
      apply list_elem_of_fmap. exists (attr_value a). split; [|done].
      destruct a; simpl in *. congruence.
    + apply list_elem_of_fmap. eauto.
Qed.

Lemma insert_node_after_delete u now d :
  insert_node u now (delete_options u (delete_attributes u (delete_node u d)))
  = Some (MkDB (filter (λ r, row_uuid r ≠ u) (nodes_table d)
                  ++ [NodeRow u now None None])
               (filter (λ a, attr_uuid a ≠ u) (attributes_table d))
               (filter (λ o, opt_uuid o ≠ u) (options_table d))).
Proof.
  unfold insert_node. simpl. destruct (decide _) as [Hin|]; [|done].
  apply list_elem_of_fmap in Hin as (r & Hu & Hr).
  apply list_elem_of_filter in Hr as [Hne _]. done.
Qed.

(** [add_node] in full: a complete replacement, or an error and the
    database as it was. *)
Lemma add_node_inv uuid attributes now w r w' :
  add_node uuid attributes now w = (r, w') →
  match r with
  | inr node_info =>
      node_info = NodeInfo.new uuid now
      ∧ nodes_table (db w') =
          filter (λ r, row_uuid r ≠ uuid) (nodes_table (db w))
            ++ [NodeRow uuid now None None]
      ∧ attributes_table (db w') =
          filter (λ a, attr_uuid a ≠ uuid) (attributes_table (db w))
            ++ initial_attributes uuid attributes
      ∧ options_table (db w') =
          filter (λ o, opt_uuid o ≠ uuid) (options_table (db w))
      ∧ (NoDup (attr_key <$> attributes_table (db w)) →
         NoDup (attr_key <$> attributes_table (db w')))
  | inl e =>
      db w' = db w ∧ ∃ name value, e = already_on_introspection name value
  end.
Proof.
  unfold add_node, with_db, bind, execute, execute_insert. simpl.
  rewrite insert_node_after_delete.
  destruct (for_loop attributes (add_node_step (NodeInfo.new uuid now)) tt _)
    as [r1 w1] eqn:Hloop.
  apply add_node_loop_inv in Hloop as (Hn & Ho & Hr). simpl in *.
  destruct r1 as [e|[]]; unfold ret; intros [= <- <-]; simpl.
  - done.
  - destruct Hr as [Ha Hnd]. repeat split; try done.
    intros Hk. apply Hnd. by apply NoDup_fmap_filter.
Qed.

(** C5.  [add_node] on a database that respects its primary keys either
    raises the duplicate-attribute error and leaves the database as it was,
    or replaces the session in one step: the nodes table holds the fresh row
    (started now, not finished, no error) and the rows of the other
    sessions; the attributes table holds the rows claimed by the non-empty
    initial attributes and the rows of the other sessions; the options of
    the session are gone; and looking up a value the old session held fails
    with the not-found error unless the new session claims it too.  There is
    no outcome in between. *)
Theorem add_node_replaces uuid attributes now w :
  db_ok (db w) →
  ∃ r w',
    add_node uuid attributes now w = (r, w')
    ∧ match r with
      | inl e =>
          db w' = db w ∧ ∃ name value, e = already_on_introspection name value
      | inr node_info =>
          node_info = NodeInfo.new uuid now
          ∧ db_ok (db w')
          ∧ (∀ row, row ∈ nodes_table (db w') ↔
                    row = NodeRow uuid now None None
                    ∨ (row ∈ nodes_table (db w) ∧ row_uuid row ≠ uuid))
          ∧ (∀ a, a ∈ attributes_table (db w') ↔
                  claims uuid attributes a
                  ∨ (a ∈ attributes_table (db w) ∧ attr_uuid a ≠ uuid))
          ∧ (∀ o, o ∈ options_table (db w') ↔
                  o ∈ options_table (db w) ∧ opt_uuid o ≠ uuid)
          ∧ (∀ a value,
               a ∈ attributes_table (db w) → attr_uuid a = uuid →
               as_list value = [attr_value a] →
               (∀ a', claims uuid attributes a' → attr_key a' ≠ attr_key a) →
               fst (find_node [(attr_name a, Some value)] w')
               = inl (could_not_find_a_node [(attr_name a, Some value)]))
      end.
Proof.
  intros Hok.
  destruct (add_node uuid attributes now w) as [r w'] eqn:Hadd.
  exists r, w'. split; [done|].
  apply add_node_inv in Hadd. destruct r as [e|node_info]; [done|].
  destruct Hadd as (-> & Hn & Ha & Ho & Hnd).
  assert (Hattrs : ∀ a, a ∈ attributes_table (db w') ↔
                        claims uuid attributes a
                        ∨ (a ∈ attributes_table (db w) ∧ attr_uuid a ≠ uuid)).
  { intros a. rewrite Ha, elem_of_app, list_elem_of_filter,
      elem_of_initial_attributes. tauto. }
  split; [done|]. split; [|split; [|split; [done|split]]].
  - destruct Hok as [Hkn Hka Hko]. split.
    + rewrite Hn, fmap_app. apply NoDup_app. split; [|split].
      * by apply NoDup_fmap_filter.
      * intros u (row & -> & Hrow)%list_elem_of_fmap.
        apply list_elem_of_filter in Hrow as [Hne _]. simpl.
        by intros Heq%list_elem_of_singleton.
      * apply NoDup_singleton.
    + by apply Hnd.
    + rewrite Ho. by apply NoDup_fmap_filter.
  - intros row. rewrite Hn, elem_of_app, list_elem_of_filter,
      list_elem_of_singleton. tauto.
  - intros o. rewrite Ho, list_elem_of_filter. tauto.
  - intros a value Hin Hu Hval Hfree. apply find_node_no_candidate.
    intros u' (name & value' & a' & Hitem & _ & Ha' & Hname & Hv & _).
    apply list_elem_of_singleton in Hitem. injection Hitem as Hnm Hvl. subst.
    rewrite Hval in Hv. apply list_elem_of_singleton in Hv.
    assert (attr_key a' = attr_key a) as Hkey by (unfold attr_key; congruence).
    apply Hattrs in Ha' as [Hclaim|[Hold Hne]].
    + by apply (Hfree a').
    + assert (a' = a)
        by (eapply (NoDup_fmap_elem_inj attr_key); eauto using ok_attributes).
      congruence.
Qed.

Lemma add_node_replaces_witness :
  ∃ r w',
    add_node "u1" [("mac", Some (Many ["bb"])); ("bmc_address", None)] 20
             store_one = (r, w')
    ∧ fst (find_node [("mac", Some (Single "aa"))] w')
      = inl (could_not_find_a_node [("mac", Some (Single "aa"))]).
Proof.
  destruct (add_node_replaces
              "u1" [("mac", Some (Many ["bb"])); ("bmc_address", None)] 20
              store_one store_one_ok)
    as (r & w' & Hadd & Hr).
  exists r, w'. split; [exact Hadd|].
  assert (r = inr (NodeInfo.new "u1" 20)) as ->.
  { assert (fst (add_node "u1" [("mac", Some (Many ["bb"]));
                                ("bmc_address", None)] 20 store_one)
            = inr (NodeInfo.new "u1" 20)) as Hrun by (by vm_compute).
    by rewrite Hadd in Hrun. }
  destruct Hr as (_ & _ & _ & _ & _ & Hfind).
  apply (Hfind (AttributeRow "mac" "aa" "u1") (Single "aa")).
  - by_computation.
  - reflexivity.
  - reflexivity.
  - intros a' (name & value & Hitem & He & Hname & Hv & _) Hkey.
    apply elem_of_cons in Hitem as [[= -> ->]|Hitem].
    + simpl in Hv. apply list_elem_of_singleton in Hv.
      unfold attr_key in Hkey. simpl in Hkey. congruence.
    + apply list_elem_of_singleton in Hitem. discriminate.
Defined.

(** ** The sweep *)

Lemma filter_all {A} (P : A → Prop) `{∀ x, Decision (P x)} (l : list A) :
  (∀ x, x ∈ l → P x) → filter P l = l.
Proof.
  induction l as [|x l IH]; intros HP; [done|].
  rewrite filter_cons_True by (apply HP, elem_of_cons; auto).
  f_equal. apply IH. intros y Hy. apply HP, elem_of_cons. auto.
Qed.

Lemma filter_none {A} (P : A → Prop) `{∀ x, Decision (P x)} (l : list A) :
  (∀ x, x ∈ l → ¬ P x) → filter P l = [].
Proof.
  induction l as [|x l IH]; intros HP; [done|].
  rewrite filter_cons_False by (apply HP, elem_of_cons; auto).
  apply IH. intros y Hy. apply HP, elem_of_cons. auto.
Qed.

Lemma execute_eq stmt w :
  execute stmt w = (inr tt, World (stmt (db w)) (log w)).
Proof. reflexivity. Qed.

Lemma executemany_delete_attributes uuids w :
  executemany (λ u, execute (delete_attributes u)) uuids w
  = (inr tt,
     World (set_attributes (db w)
              (filter (λ a, attr_uuid a ∉ uuids) (attributes_table (db w))))
           (log w)).
Proof.
  revert w. induction uuids as [|u uuids IH]; intros w; simpl.
  - unfold ret. destruct w as [[n a o] l]. unfold set_attributes. simpl.
    rewrite filter_all; [done|]. intros x _ Hx. by apply elem_of_nil in Hx.
  - unfold bind, execute at 1. rewrite IH. simpl. unfold set_attributes. simpl.
    rewrite list_filter_filter. do 3 f_equal. apply list_filter_iff.
    intros a. rewrite not_elem_of_cons. tauto.
Qed.

Lemma executemany_delete_options uuids w :
  executemany (λ u, execute (delete_options u)) uuids w
  = (inr tt,
     World (set_options (db w)
              (filter (λ o, opt_uuid o ∉ uuids) (options_table (db w))))
           (log w)).
Proof.
  revert w. induction uuids as [|u uuids IH]; intros w; simpl.
  - unfold ret. destruct w as [[n a o] l]. unfold set_options. simpl.
    rewrite filter_all; [done|]. intros x _ Hx. by apply elem_of_nil in Hx.
  - unfold bind, execute at 1. rewrite IH. simpl. unfold set_options. simpl.
    rewrite list_filter_filter. do 3 f_equal. apply list_filter_iff.
    intros a. rewrite not_elem_of_cons. tauto.
Qed.

Lemma fmap_id_on {A} (f : A → A) (l : list A) :
  (∀ x, x ∈ l → f x = x) → f <$> l = l.
Proof.
  induction l as [|x l IH]; intros Hf; [done|]. simpl.
  rewrite Hf by (apply elem_of_cons; auto).
  f_equal. apply IH. intros y Hy. apply Hf, elem_of_cons. auto.
Qed.

(** A row that can time out is not finished, so it is not one the sweep
    deletes. *)
Lemma timed_out_not_finished_before thr thr' row :
  timed_out thr row → ¬ finished_before thr' row.
Proof. unfold timed_out, finished_before. intros [_ ->]. tauto. Qed.

Lemma timed_out_after_delete thr thr' d :
  filter (timed_out thr) (nodes_table (delete_finished_before thr' d))
  = filter (timed_out thr) (nodes_table d).
Proof.
  unfold delete_finished_before. simpl. apply list_filter_filter_l.
  intros row. apply timed_out_not_finished_before.
Qed.

Lemma not_elem_of_nil_filter {A B} (f : A → B)
    `{∀ x, Decision (f x ∉ ([] : list B))} (l : list A) :
  filter (λ x, f x ∉ []) l = l.
Proof. apply filter_all. intros x _ Hx. by apply elem_of_nil in Hx. Qed.

(** [clean_up] as a function of the database: it never raises. *)
Lemma clean_up_eq CONF now1 now2 now3 w :
  ∃ w',
    clean_up CONF now1 now2 now3 w = (inr (timed_out_ids CONF now2 (db w)), w')
    ∧ db w' = sweep CONF now1 now2 now3 (db w).
Proof.
  unfold clean_up, bind, with_db, get_db, timed_out_ids, sweep, sweep_row,
    timed_out_ids.
  cbv zeta. rewrite execute_eq. cbv beta iota.
  destruct (decide (timeout CONF ≤ 0)%Z) as [Hle|Hgt].
  { rewrite decide_False by lia. eexists. split; [reflexivity|].
    unfold delete_finished_before, set_nodes, expired. simpl.
    rewrite !not_elem_of_nil_filter. f_equal.
    symmetry. apply fmap_id_on. intros row _. apply decide_False. lia. }
  rewrite decide_True by lia.
  cbn [db log]. rewrite timed_out_after_delete. unfold stale.
  destruct (row_uuid <$> filter (timed_out (now2 - timeout CONF)) (nodes_table (db w)))
    as [|u uuids] eqn:Hids.
  - unfold ret. eexists. split; [reflexivity|].
    apply fmap_nil_inv in Hids.
    unfold delete_finished_before, set_nodes, expired. simpl.
    rewrite !not_elem_of_nil_filter. f_equal.
    symmetry. apply fmap_id_on. intros row Hrow. apply decide_False.
    intros [_ Hst]. apply list_elem_of_filter in Hrow as [_ Hrow].
    assert (row ∈ filter (timed_out (now2 - timeout CONF)) (nodes_table (db w)))
      as Hin by (apply list_elem_of_filter; auto).
    rewrite Hids in Hin. by apply elem_of_nil in Hin.
  - unfold LOG, ret. cbv beta iota. cbn [db log].
    rewrite execute_eq. cbv beta iota.
    rewrite executemany_delete_attributes. cbv beta iota.
    rewrite executemany_delete_options.
    eexists. split; [reflexivity|].
    unfold update_timed_out, delete_finished_before, set_nodes, set_attributes,
      set_options, expired. simpl. f_equal.
    apply list_fmap_ext. intros _ row _. apply decide_ext.
    split; [intros ?; split; [lia|done]|by intros [_ ?]].
Qed.

(** C4.  [clean_up] returns a list of ids and never raises.  (a) It
    deletes the rows whose [finished_at] is older than the retention time,
    whatever the timeout.  (b) With a positive timeout, the list is the ids
    of the rows with no [finished_at] and a [started_at] older than the
    timeout; each of these rows gets [finished_at] set and the error
    "Introspection timeout", and the attribute and option rows of these
    ids are deleted.  With a timeout that is not positive, the list is
    empty and nothing but (a) happens. *)
Theorem clean_up_sweeps CONF now1 now2 now3 w :
  ∃ ids w',
    clean_up CONF now1 now2 now3 w = (inr ids, w')
    ∧ ((timeout CONF ≤ 0)%Z →
       ids = []
       ∧ nodes_table (db w') =
           filter (λ row, ¬ expired CONF now1 row) (nodes_table (db w))
       ∧ attributes_table (db w') = attributes_table (db w)
       ∧ options_table (db w') = options_table (db w))
    ∧ ((0 < timeout CONF)%Z →
       ids = row_uuid <$> filter (stale CONF now2) (nodes_table (db w))
       ∧ nodes_table (db w') =
           (λ row, if decide (stale CONF now2 row)
                   then force_finished now3 row else row)
             <$> filter (λ row, ¬ expired CONF now1 row) (nodes_table (db w))
       ∧ attributes_table (db w') =
           filter (λ a, attr_uuid a ∉ ids) (attributes_table (db w))
       ∧ options_table (db w') =
           filter (λ o, opt_uuid o ∉ ids) (options_table (db w))).
Proof.
  destruct (clean_up_eq CONF now1 now2 now3 w) as (w' & Hrun & Hdb).
  exists (timed_out_ids CONF now2 (db w)), w'. split; [done|].
  rewrite Hdb. unfold sweep, sweep_row, timed_out_ids. simpl. split.
  - intros Hle. rewrite decide_False by lia.
    rewrite !not_elem_of_nil_filter. repeat split.
    apply fmap_id_on. intros row _. apply decide_False. lia.
  - intros Hgt. rewrite decide_True by lia. repeat split.
    apply list_fmap_ext. intros _ row _. apply decide_ext.
    split; [by intros [_ ?]|intros ?; split; [lia|done]].
Qed.

Lemma clean_up_sweeps_witness :
  ∃ w',
    clean_up (Config 1000 5 true) 100 100 101 store_one = (inr ["u1"], w')
    ∧ nodes_table (db w')
      = [NodeRow "u1" 10 (Some 101%Z) (Some (Lit "Introspection timeout"))]
    ∧ attributes_table (db w') = [].
Proof.
  destruct (clean_up_sweeps (Config 1000 5 true) 100 100 101 store_one)
    as (ids & w' & Hrun & _ & Hpos).
  destruct Hpos as (-> & Hn & Ha & _); [reflexivity|].
  exists w'. split; [exact Hrun|]. rewrite Hn, Ha. split; reflexivity.
Defined.

Lemma sweep_row_uuid CONF now2 now3 row :
  row_uuid (sweep_row CONF now2 now3 row) = row_uuid row.
Proof. unfold sweep_row. by case_decide. Qed.

(** After a sweep no row is stale for a clock that has not advanced. *)
Lemma sweep_leaves_no_stale CONF now1 now2 now3 now2' d row :
  (now2' ≤ now2)%Z → (0 < timeout CONF)%Z →
  row ∈ nodes_table (sweep CONF now1 now2 now3 d) →
  ¬ stale CONF now2' row.
Proof.
  intros Hclock Hpos Hrow. unfold sweep in Hrow. simpl in Hrow.
  apply list_elem_of_fmap in Hrow as (row0 & -> & Hrow0).
  unfold sweep_row, stale, timed_out.
  case_decide as Hst.
  - simpl. by intros [_ ?].
  - intros [Hlt Hnone]. apply Hst. split; [done|].
    unfold stale, timed_out. split; [lia|done].
Qed.

(** Whatever the time between two sweeps, a session the first one timed
    out is not in the list of the second. *)
Lemma clean_up_never_twice CONF now1 now2 now3 now1' now2' now3' w ids w1 ids' w2 :
  db_ok (db w) →
  clean_up CONF now1 now2 now3 w = (inr ids, w1) →
  clean_up CONF now1' now2' now3' w1 = (inr ids', w2) →
  ∀ u, u ∈ ids → u ∉ ids'.
Proof.
  intros Hok Hrun1 Hrun2 u Hu Hu'.
  destruct (clean_up_eq CONF now1 now2 now3 w) as (w1' & Heq1 & Hdb1).
  rewrite Hrun1 in Heq1. injection Heq1 as -> <-.
  destruct (clean_up_eq CONF now1' now2' now3' w1) as (w2' & Heq2 & _).
  rewrite Hrun2 in Heq2. injection Heq2 as -> <-.
  unfold timed_out_ids in Hu, Hu'.
  destruct (decide (0 < timeout CONF)%Z) as [Hpos|]; [|by apply elem_of_nil in Hu].
  apply list_elem_of_fmap in Hu as (row & -> & Hrow).
  apply list_elem_of_filter in Hrow as [Hst Hrow].
  apply list_elem_of_fmap in Hu' as (row' & Huuid & Hrow').
  apply list_elem_of_filter in Hrow' as [Hst' Hrow'].
  rewrite Hdb1 in Hrow'. unfold sweep in Hrow'. simpl in Hrow'.
  apply list_elem_of_fmap in Hrow' as (row0 & -> & Hrow0).
  apply list_elem_of_filter in Hrow0 as [_ Hrow0].
  rewrite sweep_row_uuid in Huuid.
  assert (row0 = row) as ->
    by (eapply (NoDup_fmap_elem_inj row_uuid); eauto using ok_nodes).
  unfold sweep_row in Hst'. rewrite decide_True in Hst' by done.
  unfold stale, timed_out, force_finished in Hst'. simpl in Hst'.
  by destruct Hst' as [_ ?].
Qed.

Lemma filter_fmap {A B} (f : A → B) (P : B → Prop) `{∀ x, Decision (P x)}
    (l : list A) :
  filter P (f <$> l) = f <$> filter (λ x, P (f x)) l.
Proof.
  induction l as [|x l IH]; [done|].
  rewrite fmap_cons, !filter_cons.
  destruct (decide (P (f x))); [rewrite fmap_cons|]; by rewrite IH.
Qed.

(** The list of a second sweep, read off the database before the first:
    the sessions that are stale for the second clock and were not for the
    first. *)
Lemma timed_out_ids_after_sweep CONF now1 now2 now3 now2' d :
  timed_out_ids CONF now2' (sweep CONF now1 now2 now3 d)
  = if decide (0 < timeout CONF)%Z
    then row_uuid <$> filter (λ row, stale CONF now2' row ∧ ¬ stale CONF now2 row)
                             (nodes_table d)
    else [].
Proof.
  unfold timed_out_ids. case_decide as Hpos; [|done].
  unfold sweep. cbn [nodes_table].
  rewrite filter_fmap, <- list_fmap_compose, list_filter_filter.
  rewrite (list_fmap_ext (row_uuid ∘ sweep_row CONF now2 now3) row_uuid)
    by (intros _ row _; apply sweep_row_uuid).
  f_equal. apply list_filter_iff. intros row. unfold sweep_row.
  case_decide as Hst.
  - split.
    + intros [[_ Hfin] _]. simpl in Hfin. discriminate.
    + intros [_ Hns]. destruct Hns. by destruct Hst.
  - split.
    + intros [Hst' _]. split; [done|]. intros Hst2. apply Hst. by split.
    + intros [Hst' _]. split; [done|].
      by eapply timed_out_not_finished_before.
Qed.

(** C9, as the code has it.  Two runs of [clean_up], one after the other,
    both return and neither raises.  The second returns the ids of the
    sessions that are active, stale for the clock of the second run and not
    stale for the clock of the first; so its list is empty when the clock
    reading that sets its threshold is not later than that of the first run,
    and it never holds an id the first run returned when ids are unique. *)
Theorem clean_up_twice CONF now1 now2 now3 now1' now2' now3' w :
  ∃ ids w1 ids' w2,
    clean_up CONF now1 now2 now3 w = (inr ids, w1)
    ∧ clean_up CONF now1' now2' now3' w1 = (inr ids', w2)
    ∧ ids' = (if decide (0 < timeout CONF)%Z
              then row_uuid
                     <$> filter (λ row, stale CONF now2' row
                                        ∧ ¬ stale CONF now2 row)
                                (nodes_table (db w))
              else [])
    ∧ ((now2' ≤ now2)%Z → ids' = [])
    ∧ (db_ok (db w) → ∀ u, u ∈ ids → u ∉ ids').
Proof.
  destruct (clean_up_eq CONF now1 now2 now3 w) as (w1 & Hrun1 & Hdb1).
  destruct (clean_up_eq CONF now1' now2' now3' w1) as (w2 & Hrun2 & Hdb2).
  exists (timed_out_ids CONF now2 (db w)), w1,
         (timed_out_ids CONF now2' (db w1)), w2.
  split; [done|]. split; [done|]. split; [|split].
  - rewrite Hdb1. apply timed_out_ids_after_sweep.
  - intros Hclock. unfold timed_out_ids. case_decide as Hpos; [|done].
    rewrite filter_none; [done|].
    intros row Hrow. rewrite Hdb1 in Hrow.
    by eapply sweep_leaves_no_stale.
  - intros Hok. by eapply clean_up_never_twice.
Qed.

Lemma clean_up_twice_witness :
  ∃ w1 w2,
    clean_up (Config 1000 5 true) 100 100 101 store_one = (inr ["u1"], w1)
    ∧ clean_up (Config 1000 5 true) 102 103 104 w1 = (inr [], w2).
Proof.
  destruct (clean_up_twice (Config 1000 5 true) 100 100 101 102 103 104
              store_one)
    as (ids & w1 & ids' & w2 & Hrun1 & Hrun2 & Hids' & _).
  assert (fst (clean_up (Config 1000 5 true) 100 100 101 store_one)
          = inr ["u1"]) as Hfst by (vm_compute; reflexivity).
  rewrite Hrun1 in Hfst. injection Hfst as ->.
  assert (ids' = []) as -> by (rewrite Hids'; vm_compute; reflexivity).
  exists w1, w2. split; [exact Hrun1|exact Hrun2].
Defined.

(** C9 as stated fails: when the clock advances between the two runs, the
    second run times out a session that the first found young enough, and
    its list is not empty. *)
Lemma clean_up_twice_counterexample :
  let CONF := Config 1000 5 true in
  let r1 := clean_up CONF 100 100 101 store_two in
  let r2 := clean_up CONF 102 102 103 (snd r1) in
  fst r1 = inr ["u1"] ∧ fst r2 = inr ["u2"] ∧ fst r2 ≠ inr [].
Proof. repeat split; by vm_compute. Qed.

(** ** Finishing a session *)

(** [finished] in full: it never raises. *)
Lemma finished_eq self error now w :
  NodeInfo.finished self error now w
  = (inr (NodeInfo.Make (NodeInfo.uuid self) (NodeInfo.started_at self)
                        (Some now) error
                        (NodeInfo._options self) (NodeInfo._ports self)),
     World (delete_options (NodeInfo.uuid self)
              (delete_attributes (NodeInfo.uuid self)
                 (update_finished (NodeInfo.uuid self) now error (db w))))
           (log w)).
Proof. reflexivity. Qed.

Lemma elem_of_update_finished u now error d row' :
  row' ∈ nodes_table (update_finished u now error d) ↔
  ∃ row, row ∈ nodes_table d
         ∧ row' = if decide (row_uuid row = u)
                  then NodeRow (row_uuid row) (row_started_at row) (Some now) error
                  else row.
Proof.
  unfold update_finished. simpl. rewrite list_elem_of_fmap.
  split; intros (row & H1 & H2); exists row; auto.
Qed.

(** The three statements of [finished], in terms of rows. *)
Lemma finished_session_finished u now err d :
  session_finished d
    (delete_options u (delete_attributes u (update_finished u now err d)))
    u now err.
Proof.
  unfold session_finished, delete_options, delete_attributes, set_options,
    set_attributes.
  cbn [nodes_table attributes_table options_table].
  split; [|split; [|split; [|split]]].
  - intros row Hrow Hu. apply elem_of_update_finished. exists row.
    split; [done|]. rewrite decide_True by done. by rewrite Hu.
  - intros row' (row & Hrow & ->)%elem_of_update_finished Hu.
    case_decide as Hrow_u; [by simpl|done].
  - intros row' Hne. rewrite elem_of_update_finished. split.
    + intros (row & Hrow & ->). case_decide as Hrow_u; [|done].
      simpl in Hne. done.
    + intros Hrow. exists row'. split; [done|]. by rewrite decide_False.
  - intros a. rewrite list_elem_of_filter. simpl. tauto.
  - intros o. rewrite list_elem_of_filter. simpl. tauto.
Qed.

(** C6, as the code has it.  [finished] never raises, on a finished
    session as on any other.  Afterwards every row of the session has
    [finished_at] set, to the time of this call, and carries the error of
    this call: the session is not made active again, but the [finished_at]
    and the error recorded before are overwritten.  Rows of other sessions
    are kept as they are, a session without a row gets none (the nodes
    table is then left as it is), and the attribute and option rows that
    carry the id of the session are deleted, whether it has a row or not. *)
Theorem finished_overwrites self error now w :
  ∃ self' w',
    NodeInfo.finished self error now w = (inr self', w')
    ∧ (∀ row, row ∈ nodes_table (db w) → row_uuid row = NodeInfo.uuid self →
         NodeRow (row_uuid row) (row_started_at row) (Some now) error
           ∈ nodes_table (db w'))
    ∧ (∀ row', row' ∈ nodes_table (db w') → row_uuid row' = NodeInfo.uuid self →
         row_finished_at row' = Some now ∧ row_error row' = error
         ∧ ∃ row, row ∈ nodes_table (db w) ∧ row_uuid row = NodeInfo.uuid self
                  ∧ row_started_at row = row_started_at row')
    ∧ (∀ row', row_uuid row' ≠ NodeInfo.uuid self →
         row' ∈ nodes_table (db w') ↔ row' ∈ nodes_table (db w))
    ∧ (∀ a, a ∈ attributes_table (db w') ↔
            a ∈ attributes_table (db w) ∧ attr_uuid a ≠ NodeInfo.uuid self)
    ∧ (∀ o, o ∈ options_table (db w') ↔
            o ∈ options_table (db w) ∧ opt_uuid o ≠ NodeInfo.uuid self)
    ∧ ((∀ row, row ∈ nodes_table (db w) → row_uuid row ≠ NodeInfo.uuid self) →
       nodes_table (db w') = nodes_table (db w)).
Proof.
  rewrite finished_eq. eexists _, _. split; [reflexivity|]. cbn [db].
  unfold delete_options, delete_attributes, set_options, set_attributes.
  cbn [nodes_table attributes_table options_table].
  split; [|split; [|split; [|split; [|split]]]].
  6:{ intros Hno. unfold update_finished. simpl. apply fmap_id_on.
      intros row Hrow. rewrite decide_False; [done|]. by apply Hno. }
  - intros row Hrow Hu. apply elem_of_update_finished. exists row.
    split; [done|]. by rewrite decide_True.
  - intros row' (row & Hrow & ->)%elem_of_update_finished Hu.
    case_decide as Hrow_u.
    + simpl. repeat split. eauto.
    + done.
  - intros row' Hne. rewrite elem_of_update_finished. split.
    + intros (row & Hrow & ->). case_decide as Hrow_u; [|done].
      simpl in Hne. done.
    + intros Hrow. exists row'. split; [done|]. by rewrite decide_False.
  - intros a. rewrite list_elem_of_filter. simpl. tauto.
  - intros o. rewrite list_elem_of_filter. simpl. tauto.
Qed.

Lemma finished_overwrites_witness :
  ∃ w',
    fst (NodeInfo.finished (NodeInfo.new "u1" 10) (Some (Lit "late failure"))
                           200 store_timed_out)
    = inr (NodeInfo.Make "u1" 10 (Some 200%Z) (Some (Lit "late failure"))
                         None None)
    ∧ NodeRow "u1" 10 (Some 200%Z) (Some (Lit "late failure"))
        ∈ nodes_table (db w').
Proof.
  destruct (finished_overwrites (NodeInfo.new "u1" 10)
              (Some (Lit "late failure")) 200 store_timed_out)
    as (self' & w' & Hrun & Hset & _).
  exists w'. split; [reflexivity|].
  apply (Hset (NodeRow "u1" 10 (Some 101%Z) (Some (Lit "Introspection timeout")))).
  - apply elem_of_cons. by left.
  - reflexivity.
Defined.

(** How [store_timed_out] comes about: the sweep times the session out. *)
Example store_timed_out_reachable :
  let r1 := add_node "u1" [] 10 store_empty in
  let r2 := clean_up (Config 1000 5 true) 100 100 101 (snd r1) in
  fst r2 = inr ["u1"] ∧ db (snd r2) = db store_timed_out.
Proof. split; by vm_compute. Qed.

(** C6 as stated fails: a session that the sweep has finished is finished
    again by a later call, which replaces the recorded [finished_at] and
    error. *)
Lemma finished_twice_counterexample :
  nodes_table (db store_timed_out)
  = [NodeRow "u1" 10 (Some 101%Z) (Some (Lit "Introspection timeout"))]
  ∧ nodes_table
      (db (snd (NodeInfo.finished (NodeInfo.new "u1" 10)
                                  (Some (Lit "late failure")) 200
                                  store_timed_out)))
    = [NodeRow "u1" 10 (Some 200%Z) (Some (Lit "late failure"))]
  ∧ nodes_table
      (db (snd (NodeInfo.finished (NodeInfo.new "u1" 10)
                                  (Some (Lit "late failure")) 200
                                  store_timed_out)))
    ≠ nodes_table (db store_timed_out).
Proof. repeat split. by vm_compute. Qed.

(** A session without a row: [finished] leaves the nodes table empty, and
    still deletes the attribute row that carries the id. *)
Example finished_without_row :
  db store_dangling = MkDB [] [AttributeRow "mac" "aa" "u1"] []
  ∧ db (snd (NodeInfo.finished (NodeInfo.new "u1" 10) None 50 store_dangling))
    = MkDB [] [] [].
Proof. split; [reflexivity|]. vm_compute. reflexivity. Qed.

(** ** Validating new credentials *)

Lemma accepted_chars_alnum c :
  c ∈ PASSWORD_ACCEPTED_CHARS ↔ is_alnum c = true.
Proof.
  rewrite <- (bool_decide_spec (c ∈ PASSWORD_ACCEPTED_CHARS)).
  rewrite <- Is_true_true.
  destruct c as [[] [] [] [] [] [] [] []]; vm_compute; tauto.
Qed.

Lemma remove_dups_nil {A} `{EqDecision A} (l : list A) :
  remove_dups l = [] ↔ l = [].
Proof.
  split; [|by intros ->]. intros Hnil. destruct l as [|x l]; [done|].
  assert (x ∈ remove_dups (x :: l)) as Hx
    by (apply elem_of_remove_dups, elem_of_cons; auto).
  rewrite Hnil in Hx. by apply elem_of_nil in Hx.
Qed.

(** No wrong character means an alphanumeric password. *)
Lemma wrong_chars_nil password :
  remove_dups (filter (λ c, c ∉ PASSWORD_ACCEPTED_CHARS)
                      (String.list_ascii_of_string password)) = []
  ↔ alphanumeric password.
Proof.
  rewrite remove_dups_nil. unfold alphanumeric. rewrite Forall_forall. split.
  - intros Hnil c Hc. apply accepted_chars_alnum.
    destruct (decide (c ∈ PASSWORD_ACCEPTED_CHARS)) as [|Hno]; [done|].
    by destruct (filter_nil_not_elem_of _ _ c Hnil Hno).
  - intros Hall. apply filter_none. intros c Hc Hno.
    apply Hno, accepted_chars_alnum, Hall, Hc.
Qed.

(** [_validate_ipmi_credentials] succeeds exactly when every check
    passes, and then returns the resolved user name and the password. *)
Lemma validate_ipmi_credentials_inr CONF node username password r :
  _validate_ipmi_credentials CONF node (username, password) = inr r ↔
  enable_setting_ipmi_credentials CONF = true
  ∧ maintenance node = true
  ∧ resolved_username node username ≠ EmptyString
  ∧ alphanumeric password
  ∧ (1 ≤ String.length password ≤ 20)%nat
  ∧ r = (resolved_username node username, password).
Proof.
  unfold _validate_ipmi_credentials. cbn [fst snd].
  fold (resolved_username node username).
  destruct (enable_setting_ipmi_credentials CONF); simpl; [|naive_solver].
  destruct (maintenance node); simpl; [|naive_solver].
  destruct (String.eqb_spec (resolved_username node username) EmptyString)
    as [Hu|Hu]; [naive_solver|].
  pose proof (wrong_chars_nil password) as Hwrong.
  destruct (remove_dups _) as [|c cs].
  - apply proj1 in Hwrong. specialize (Hwrong eq_refl).
    unfold PASSWORD_MAX_LENGTH. case_bool_decide as Hlen.
    + split; [intros [= <-]; repeat split; auto; lia|]. naive_solver.
    + split; [done|]. intros (_ & _ & _ & _ & Hl & _). lia.
  - split; [done|]. intros (_ & _ & _ & Hal & _).
    apply Hwrong in Hal. done.
Qed.

(** Every failure of the validation is a [utils.Error]. *)
Lemma validate_ipmi_credentials_inl CONF node creds e :
  _validate_ipmi_credentials CONF node creds = inl e → is_utils_Error e = true.
Proof.
  unfold _validate_ipmi_credentials.
  repeat (match goal with
          | |- context [if ?b then _ else _] => destruct b
          | |- context [match ?l with [] => _ | _ :: _ => _ end] => destruct l
          end; simpl; try (by intros [= <-]); try done).
Qed.

(** C8.  The validation of new credentials returns only when setting
    credentials is enabled, the node is in maintenance mode and the password
    is made of letters and digits and has between 1 and 20 characters.
    When it fails it raises a [utils.Error], and [introspect] raises the
    same error with the database and the log untouched: no session is
    created.  The password "abc def!" is rejected whatever the rest; the
    password "abc123" is accepted when setting credentials is enabled, the
    node is in maintenance mode and a user name is given or known. *)
Theorem validate_ipmi_credentials_checks CONF node username password :
  (∀ r, _validate_ipmi_credentials CONF node (username, password) = inr r →
        enable_setting_ipmi_credentials CONF = true
        ∧ maintenance node = true
        ∧ alphanumeric password
        ∧ (1 ≤ String.length password ≤ 20)%nat)
  ∧ (∀ e, _validate_ipmi_credentials CONF node (username, password) = inl e →
          is_utils_Error e = true
          ∧ ∀ check_provision_state get_ipmi_address ironic uuid now w,
              node_get ironic uuid = inr node →
              check_provision_state node = None →
              introspect check_provision_state get_ipmi_address CONF ironic
                         uuid (Some (username, password)) now w
              = (inl e, w))
  ∧ (∃ e, _validate_ipmi_credentials CONF node (username, "abc def!") = inl e)
  ∧ (enable_setting_ipmi_credentials CONF = true →
     maintenance node = true →
     resolved_username node username ≠ EmptyString →
     _validate_ipmi_credentials CONF node (username, "abc123")
     = inr (resolved_username node username, "abc123")).
Proof.
  split; [|split; [|split]].
  - intros r Hr. apply validate_ipmi_credentials_inr in Hr. tauto.
  - intros e He. split; [by eapply validate_ipmi_credentials_inl|].
    intros check get_addr ironic uuid now w Hget Hcheck.
    unfold introspect, bind, try_except, call, call_, raise, ret.
    rewrite Hget. cbv beta iota. rewrite Hcheck. cbv beta iota.
    by rewrite He.
  - destruct (_validate_ipmi_credentials CONF node (username, "abc def!"))
      as [e|r] eqn:Hv; [eauto|].
    apply validate_ipmi_credentials_inr in Hv as (_ & _ & _ & Hal & _).
    unfold alphanumeric in Hal. rewrite Forall_forall in Hal.
    assert (is_alnum (Ascii.ascii_of_nat 32) = true) as Hsp;
      [|by vm_compute in Hsp].
    apply Hal. by_computation.
  - intros Hen Hm Hu. apply validate_ipmi_credentials_inr.
    repeat split; auto; try (simpl; lia).
    unfold alphanumeric. simpl. repeat constructor.
Qed.

Lemma validate_ipmi_credentials_checks_witness :
  _validate_ipmi_credentials (Config 1000 5 true) node_in_maintenance
                             (EmptyString, "abc123")
  = inr ("admin", "abc123")
  ∧ ∃ e, _validate_ipmi_credentials (Config 1000 5 true) node_in_maintenance
                                    (EmptyString, "abc def!") = inl e.
Proof.
  destruct (validate_ipmi_credentials_checks
              (Config 1000 5 true) node_in_maintenance EmptyString "abc123")
    as (_ & _ & Hbad & Hgood).
  split; [|exact Hbad].
  rewrite Hgood; [reflexivity|reflexivity|reflexivity|].
  by vm_compute.
Defined.

(** ** Options *)

Lemma insert_option_after_delete u name j d :
  insert_option u name j (delete_option u name d)
  = Some (set_options d
            (filter (λ o, ¬ (opt_uuid o = u ∧ opt_name o = name)) (options_table d)
               ++ [OptionRow u name j])).
Proof.
  unfold insert_option. simpl. destruct (decide _) as [Hin|]; [|done].
  apply list_elem_of_fmap in Hin as (o & [= Hu Hn] & Ho).
  apply list_elem_of_filter in Ho as [Hne _]. by destruct Hne.
Qed.

(** [set_option] in full: it never raises. *)
Lemma set_option_eq self name value w :
  ∃ o self0 w0,
    NodeInfo.options self w = (inr (o, self0), w0) ∧ db w0 = db w
    ∧ NodeInfo.uuid self0 = NodeInfo.uuid self
    ∧ NodeInfo.set_option self name value w
      = (inr (NodeInfo.with_options self0 (<[name := value]> o)),
         World (set_options (db w)
                  (filter (λ r, ¬ (opt_uuid r = NodeInfo.uuid self
                                   ∧ opt_name r = name))
                          (options_table (db w))
                     ++ [OptionRow (NodeInfo.uuid self) name (json_dumps value)]))
               (log w0)).
Proof.
  unfold NodeInfo.set_option, bind.
  assert (∃ o self0 w0,
            NodeInfo.options self w = (inr (o, self0), w0) ∧ db w0 = db w
            ∧ log w0 = log w
            ∧ NodeInfo.uuid self0 = NodeInfo.uuid self) as (o & self0 & w0 & Hopt & Hdb & Hlog & Hu).
  { unfold NodeInfo.options. destruct (NodeInfo._options self).
    - unfold ret. eauto 10.
    - unfold bind, get_db, ret. eexists _, _, _. split; [reflexivity|]. auto. }
  exists o, self0, w0. rewrite Hopt. cbn [fst snd]. repeat split; auto.
  unfold with_db, bind. rewrite execute_eq. cbv beta iota.
  unfold execute_insert. cbn [db log NodeInfo.uuid NodeInfo.with_options].
  rewrite Hu, insert_option_after_delete, Hdb. reflexivity.
Qed.

(** The dictionary read from a single row. *)
Lemma options_dict_singleton u name j :
  NodeInfo.options_dict [OptionRow u name j] = {[ name := json_loads j ]}.
Proof. unfold NodeInfo.options_dict. simpl. by rewrite insert_empty. Qed.

(** A successful [introspect], step by step. *)
Lemma introspect_inr check_provision_state get_ipmi_address CONF ironic uuid
    credentials now w node_info w' :
  introspect check_provision_state get_ipmi_address CONF ironic uuid
             credentials now w = (inr node_info, w') →
  ∃ node validated node_info1 w1,
    node_get ironic uuid = inr node
    ∧ check_provision_state node = None
    ∧ match credentials with
      | Some c =>
          ∃ c', _validate_ipmi_credentials CONF node c = inr c'
                ∧ validated = Some c'
      | None =>
          (∃ v, node_validate ironic (node_uuid node) = inr v
                ∧ power_result v = true)
          ∧ validated = None
      end
    ∧ add_node (node_uuid node)
               [("bmc_address",
                 match get_ipmi_address node with
                 | Some a => Some (Single a)
                 | None => None
                 end)]
               now w = (inr node_info1, w1)
    ∧ NodeInfo.set_option node_info1 "new_ipmi_credentials"
                          (credentials_obj validated) w1
      = (inr node_info, w').
Proof.
  unfold introspect, bind, try_except, call, call_, raise, ret.
  destruct (node_get ironic uuid) as [e|node]; [by destruct e|].
  cbv beta iota.
  destruct (check_provision_state node) as [e|] eqn:Hcheck; [done|].
  cbv beta iota.
  destruct credentials as [c|].
  - destruct (_validate_ipmi_credentials CONF node c) as [e|c'] eqn:Hv; [done|].
    cbv beta iota.
    destruct (add_node _ _ now w) as [[e|node_info1] w1] eqn:Hadd; [done|].
    intros Hset. exists node, (Some c'), node_info1, w1. eauto 10.
  - destruct (node_validate ironic (node_uuid node)) as [e|v] eqn:Hv; [done|].
    cbv beta iota. destruct (power_result v) eqn:Hp; simpl; [|done].
    destruct (add_node _ _ now w) as [[e|node_info1] w1] eqn:Hadd; [done|].
    intros Hset. exists node, None, node_info1, w1. eauto 10.
Qed.

(** C10.  When [introspect] returns, the session it created has exactly
    one option row, named new_ipmi_credentials, holding the encoded value of
    the credentials: the validated pair, or [None] (the JSON null) when no
    credentials were given.  The cache of the returned handle holds the key,
    and a fresh handle that reads the options of the session gets a
    dictionary with the key. *)
Theorem introspect_sets_credentials_option check_provision_state
    get_ipmi_address CONF ironic uuid credentials now w node_info w' :
  introspect check_provision_state get_ipmi_address CONF ironic uuid
             credentials now w = (inr node_info, w') →
  ∃ value,
    (credentials = None → value = PyNone)
    ∧ (∀ c, credentials = Some c → ∃ username,
              value = PyTuple [PyStr username; PyStr (snd c)])
    ∧ filter (λ o, opt_uuid o = NodeInfo.uuid node_info) (options_table (db w'))
      = [OptionRow (NodeInfo.uuid node_info) "new_ipmi_credentials"
                   (json_dumps value)]
    ∧ NodeInfo._options node_info = Some {[ "new_ipmi_credentials" := value ]}
    ∧ ∀ started_at, ∃ o self' w'',
        NodeInfo.options (NodeInfo.new (NodeInfo.uuid node_info) started_at) w'
        = (inr (o, self'), w'')
        ∧ o !! "new_ipmi_credentials" = Some (json_loads (json_dumps value)).
Proof.
  intros Hrun.
  apply introspect_inr in Hrun
    as (node & validated & node_info1 & w1 & Hget & Hcheck & Hcred & Hadd & Hset).
  apply add_node_inv in Hadd as (-> & _ & _ & Hopts1 & _).
  set (u := node_uuid node) in *.
  assert (filter (λ o, opt_uuid o = u) (options_table (db w1)) = []) as Hnone.
  { rewrite Hopts1. apply filter_none. intros o Ho.
    by apply list_elem_of_filter in Ho as [Hne _]. }
  destruct (set_option_eq (NodeInfo.new u now) "new_ipmi_credentials"
              (credentials_obj validated) w1)
    as (o & self0 & w0 & Hopt & Hdb0 & Hu0 & Heq).
  rewrite Heq in Hset. injection Hset as <- <-. clear Heq.
  unfold NodeInfo.options in Hopt. cbn [NodeInfo._options NodeInfo.new] in Hopt.
  unfold bind, get_db, ret in Hopt.
  change (NodeInfo.uuid (NodeInfo.new u now)) with u in Hopt.
  rewrite Hnone in Hopt. injection Hopt as <- <- <-.
  exists (credentials_obj validated).
  cbn [NodeInfo.uuid NodeInfo.with_options NodeInfo._options NodeInfo.new db].
  assert (filter (λ o, opt_uuid o = u)
            (options_table
               (set_options (db w1)
                  (filter (λ r, ¬ (opt_uuid r = u ∧ opt_name r = "new_ipmi_credentials"))
                          (options_table (db w1))
                     ++ [OptionRow u "new_ipmi_credentials"
                                   (json_dumps (credentials_obj validated))])))
          = [OptionRow u "new_ipmi_credentials"
                       (json_dumps (credentials_obj validated))]) as Hrows.
  { simpl. rewrite filter_app.
    rewrite (filter_none (λ o, opt_uuid o = u)
               (filter _ (options_table (db w1)))).
    - simpl. rewrite filter_cons_True by done. done.
    - intros o Ho Hu. apply list_elem_of_filter in Ho as [_ Ho].
      assert (o ∈ filter (λ o, opt_uuid o = u) (options_table (db w1))) as Hin
        by (apply list_elem_of_filter; auto).
      rewrite Hnone in Hin. by apply elem_of_nil in Hin. }
  split; [|split; [|split; [|split]]].
  - intros ->. by destruct Hcred as [_ ->].
  - intros c ->. destruct Hcred as (c' & Hv & ->). destruct c as [username password].
    apply validate_ipmi_credentials_inr in Hv as (_ & _ & _ & _ & _ & ->).
    simpl. eauto.
  - exact Hrows.
  - unfold NodeInfo.options_dict. simpl. by rewrite insert_empty.
  - intros started_at. unfold NodeInfo.options.
    cbn [NodeInfo._options NodeInfo.new NodeInfo.uuid].
    unfold bind, get_db, ret. cbn [db]. rewrite Hrows.
    eexists _, _, _. split; [reflexivity|].
    rewrite options_dict_singleton. apply lookup_singleton_eq.
Qed.

Lemma introspect_sets_credentials_option_witness :
  filter (λ o, opt_uuid o = "u1")
    (options_table
       (db (snd (introspect (λ _, None) (λ _, Some "1.2.3.4")
                            (Config 1000 5 true) ironic_ok "u1" None 20
                            store_one))))
  = [OptionRow "u1" "new_ipmi_credentials" JNull].
Proof.
  assert (introspect (λ _, None) (λ _, Some "1.2.3.4")
                     (Config 1000 5 true) ironic_ok "u1" None 20 store_one
          = (inr (NodeInfo.Make "u1" 20 None None
                    (Some {[ "new_ipmi_credentials" := PyNone ]}) None),
             snd (introspect (λ _, None) (λ _, Some "1.2.3.4")
                             (Config 1000 5 true) ironic_ok "u1" None 20
                             store_one))) as Hrun.
  { rewrite (surjective_pairing (introspect _ _ _ _ _ _ _ _)) at 1.
    apply (f_equal (λ r, (r, _))). vm_compute. reflexivity. }
  destruct (introspect_sets_credentials_option
              (λ _, None) (λ _, Some "1.2.3.4") (Config 1000 5 true) ironic_ok
              "u1" None 20 store_one _ _ Hrun)
    as (value & Hnone & _ & Hrows & _).
  rewrite (Hnone eq_refl) in Hrows. exact Hrows.
Defined.

(** ** The background task *)

Section Background.

Variable update_filters : ironic_client → option exn.
Variable CONF : config.
Variable ironic : ironic_client.

(** Reading the options changes nothing and never raises. *)
Lemma options_reads_only self w :
  ∃ o self', NodeInfo.options self w = (inr (o, self'), w)
             ∧ NodeInfo.uuid self' = NodeInfo.uuid self.
Proof.
  unfold NodeInfo.options. destruct (NodeInfo._options self).
  - unfold ret. eauto.
  - unfold bind, get_db, ret. eauto.
Qed.

(** Registering the MAC's never touches the nodes table, and returns a
    handle on the same session. *)
Lemma whitelist_macs_nodes node_info w r w' :
  whitelist_macs update_filters ironic node_info w = (r, w') →
  nodes_table (db w') = nodes_table (db w)
  ∧ ∀ node_info', r = inr node_info' →
      NodeInfo.uuid node_info' = NodeInfo.uuid node_info.
Proof.
  unfold whitelist_macs, bind.
  assert (∃ r0, NodeInfo.ports node_info ironic w = (r0, w)
                ∧ ∀ p, r0 = inr p →
                    NodeInfo.uuid (snd p) = NodeInfo.uuid node_info)
    as (r0 & -> & Hr0).
  { unfold NodeInfo.ports. destruct (NodeInfo._ports node_info).
    - unfold ret. eexists. split; [reflexivity|]. by intros p [= <-].
    - unfold bind, call, raise, ret.
      destruct (node_list_ports ironic (NodeInfo.uuid node_info));
        eexists; (split; [reflexivity|]); [done|]. by intros p [= <-]. }
  destruct r0 as [e|[macs node_info1]].
  { intros [= <- <-]. done. }
  specialize (Hr0 _ eq_refl). cbn [fst snd] in *.
  destruct macs as [|mac macs].
  { unfold ret. intros [= <- <-]. split; [done|]. by intros ? [= <-]. }
  destruct (NodeInfo.add_attribute node_info1 MACS_ATTRIBUTE
              (Many (mac :: macs)) false w) as [r1 w1] eqn:Hadd.
  apply add_attribute_inv in Hadd as (Hn & _ & _).
  destruct r1 as [e|[]]; [by intros [= <- <-]|].
  unfold LOG, call_, raise, ret. cbn [db log].
  destruct (update_filters ironic); intros [= <- <-]; (split; [done|]).
  - done.
  - by intros ? [= <-].
Qed.

(** The power calls never touch the database; the only error is that of
    a failed power call. *)
Lemma power_on_inv node_info w r w' :
  power_on ironic node_info w = (r, w') →
  db w' = db w
  ∧ match r with
    | inr _ => node_set_power_state ironic (NodeInfo.uuid node_info) = None
    | inl e =>
        ∃ exc, node_set_power_state ironic (NodeInfo.uuid node_info) = Some exc
               ∧ e = failed_to_power_on (NodeInfo.uuid node_info) exc
    end.
Proof.
  unfold power_on, bind, try_except, call_, raise, ret, LOG. cbv zeta.
  destruct (node_set_boot_device ironic (NodeInfo.uuid node_info));
    destruct (node_set_power_state ironic (NodeInfo.uuid node_info));
    intros [= <- <-]; eauto.
Qed.

(** The task never touches the nodes table. *)
Lemma background_introspect_nodes node_info w r w' :
  _background_introspect update_filters CONF ironic node_info w = (r, w') →
  nodes_table (db w') = nodes_table (db w).
Proof.
  unfold _background_introspect, bind.
  destruct (whitelist_macs update_filters ironic node_info w)
    as [r1 w1] eqn:Hwl.
  apply whitelist_macs_nodes in Hwl as [Hn _].
  destruct r1 as [e|node_info1]; [by intros [= <- <-]|].
  destruct (options_reads_only node_info1 w1) as (o & self' & -> & _).
  cbn [fst snd]. destruct (negb _).
  - intros Hp. apply power_on_inv in Hp as [Hdb _]. congruence.
  - unfold LOG. by intros [= <- <-].
Qed.

(** [_handle_exceptions] in full. *)
Lemma handle_exceptions_eq node_info now w :
  ∃ w',
    _handle_exceptions update_filters CONF ironic node_info now w = (inr tt, w')
    ∧ match _background_introspect update_filters CONF ironic node_info w with
      | (inr _, w1) => w' = w1
      | (inl exc, w1) =>
          db w' = delete_options (NodeInfo.uuid node_info)
                    (delete_attributes (NodeInfo.uuid node_info)
                       (update_finished (NodeInfo.uuid node_info) now
                          (Some (recorded_error exc)) (db w1)))
      end.
Proof.
  unfold _handle_exceptions, try_except, recorded_error.
  destruct (_background_introspect update_filters CONF ironic node_info w)
    as [[exc|[]] w1]; [|eauto].
  destruct (is_utils_Error exc).
  - unfold bind. rewrite finished_eq. eexists. split; reflexivity.
  - unfold bind, LOG. rewrite finished_eq. eexists. split; reflexivity.
Qed.

End Background.

(** C3.  The closure run in the background never raises, and the task
    never writes to the nodes table.  When the task returns, the world is
    the one the task left: the session is still active.  When the task
    raises, whatever the exception, the handler records it through
    [finished]: every row of the session gets [finished_at] set to the time
    of the handler and the error text (the text of a [utils.Error], a fixed
    text for any other exception), the rows of the other sessions are as
    they were, and the attribute and option rows of the session are
    deleted.  No row of the session is in any other state. *)
Theorem handle_exceptions_resolves update_filters CONF ironic node_info now w :
  ∃ w',
    _handle_exceptions update_filters CONF ironic node_info now w = (inr tt, w')
    ∧ nodes_table
        (db (snd (_background_introspect update_filters CONF ironic node_info w)))
      = nodes_table (db w)
    ∧ match fst (_background_introspect update_filters CONF ironic node_info w) with
      | inr _ =>
          w' = snd (_background_introspect update_filters CONF ironic node_info w)
          ∧ nodes_table (db w') = nodes_table (db w)
      | inl exc =>
          session_finished
            (db (snd (_background_introspect update_filters CONF ironic
                                             node_info w)))
            (db w') (NodeInfo.uuid node_info) now (Some (recorded_error exc))
          ∧ (is_utils_Error exc = true → recorded_error exc = str exc)
          ∧ (is_utils_Error exc = false →
             recorded_error exc = unexpected_exception)
          ∧ nodes_table (db w')
            = nodes_table (update_finished (NodeInfo.uuid node_info) now
                             (Some (recorded_error exc)) (db w))
          ∧ (∀ a, a ∈ attributes_table (db w') →
                  attr_uuid a ≠ NodeInfo.uuid node_info)
          ∧ (∀ o, o ∈ options_table (db w') →
                  opt_uuid o ≠ NodeInfo.uuid node_info)
      end
    ∧ (∀ row', row' ∈ nodes_table (db w') →
         row_uuid row' = NodeInfo.uuid node_info →
         row' ∈ nodes_table (db w)
         ∨ (row_finished_at row' = Some now ∧ is_Some (row_error row'))).
Proof.
  destruct (handle_exceptions_eq update_filters CONF ironic node_info now w)
    as (w' & Hrun & Hw').
  exists w'. split; [done|].
  destruct (_background_introspect update_filters CONF ironic node_info w)
    as [r w1] eqn:Hbg.
  apply background_introspect_nodes in Hbg as Hnodes.
  cbn [fst snd]. split; [done|]. destruct r as [exc|[]].
  - assert (nodes_table (db w')
            = nodes_table (update_finished (NodeInfo.uuid node_info) now
                             (Some (recorded_error exc)) (db w))) as Hn.
    { rewrite Hw'. unfold update_finished. simpl. by rewrite Hnodes. }
    split; [split; [|split; [|split; [|split; [done|split]]]]|].
    + rewrite Hw'. apply finished_session_finished.
    + unfold recorded_error. by intros ->.
    + unfold recorded_error. by intros ->.
    + intros a Ha. rewrite Hw' in Ha. simpl in Ha.
      by apply list_elem_of_filter in Ha as [Hne _].
    + intros o Ho. rewrite Hw' in Ho. simpl in Ho.
      by apply list_elem_of_filter in Ho as [Hne _].
    + intros row' Hrow' Hu. right. rewrite Hn in Hrow'.
      apply elem_of_update_finished in Hrow' as (row & Hrow & ->).
      case_decide as Hrow_u; [simpl; eauto|]. done.
  - subst w'. split; [done|]. intros row' Hrow' _. left. by rewrite <- Hnodes.
Qed.

Lemma handle_exceptions_resolves_witness :
  ∃ w',
    _handle_exceptions (λ _, None) (Config 1000 5 true) ironic_no_power
                       (NodeInfo.new "u1" 10) 50 store_created = (inr tt, w')
    ∧ NodeRow "u1" 10 (Some 50%Z)
        (Some (str (failed_to_power_on "u1" (OtherException (Lit "power")))))
      ∈ nodes_table (db w')
    ∧ ∀ a, a ∈ attributes_table (db w') → attr_uuid a ≠ "u1".
Proof.
  destruct (handle_exceptions_resolves (λ _, None) (Config 1000 5 true)
              ironic_no_power (NodeInfo.new "u1" 10) 50 store_created)
    as (w' & Hrun & Hnodes & Hcase & _).
  assert (fst (_background_introspect (λ _, None) (Config 1000 5 true)
                 ironic_no_power (NodeInfo.new "u1" 10) store_created)
          = inl (failed_to_power_on "u1" (OtherException (Lit "power"))))
    as Hfst by (vm_compute; reflexivity).
  rewrite Hfst in Hcase.
  destruct Hcase as ((Hset & _) & _ & _ & _ & Hattrs & _).
  exists w'. split; [exact Hrun|]. split; [|exact Hattrs].
  apply (Hset (NodeRow "u1" 10 None None)); [|reflexivity].
  rewrite Hnodes. apply elem_of_cons. by left.
Defined.

(** The run of the witness: the power call fails and the session is
    finished with the error. *)
Example handle_exceptions_power_failure :
  nodes_table
    (db (snd (_handle_exceptions (λ _, None) (Config 1000 5 true)
                ironic_no_power (NodeInfo.new "u1" 10) 50 store_created)))
  = [NodeRow "u1" 10 (Some 50%Z)
       (Some (str (failed_to_power_on "u1" (OtherException (Lit "power")))))].
Proof. by vm_compute. Qed.

(** C7.  The task has registered the MAC's, which left the nodes table as
    it was, and finds no new credentials among the options.  If setting the
    boot device fails and the power call succeeds, the task returns: it logs
    the warning and then the start of the introspection, the database is the
    one it had before the two calls, and the handler leaves it so: the rows
    of the sessions are those of the start.  If the power call fails,
    whatever became of the boot device, the task raises the power error
    without touching the database, and the handler finishes the session
    with the text of that error: every row of the session gets the time of
    the handler and that text, the rows of the other sessions are as they
    were, and the attribute and option rows of the session are deleted. *)
Theorem power_on_failures update_filters CONF ironic node_info now w
    node_info1 w1 o node_info2 w2 :
  whitelist_macs update_filters ironic node_info w = (inr node_info1, w1) →
  NodeInfo.options node_info1 w1 = (inr (o, node_info2), w2) →
  truthy (default PyNone (o !! "new_ipmi_credentials")) = false →
  let uuid := NodeInfo.uuid node_info in
  nodes_table (db w1) = nodes_table (db w)
  ∧ (∀ exc,
       node_set_boot_device ironic uuid = Some exc →
       node_set_power_state ironic uuid = None →
       _background_introspect update_filters CONF ironic node_info w
       = (inr tt,
          World (db w1)
                (log w1 ++ [Log WARNING (failed_to_set_boot_device uuid exc)]
                        ++ [Log INFO (started_successfully uuid)]))
       ∧ ∃ w4, _handle_exceptions update_filters CONF ironic node_info now w
               = (inr tt, w4)
               ∧ db w4 = db w1
               ∧ nodes_table (db w4) = nodes_table (db w))
  ∧ (∀ exc,
       node_set_power_state ironic uuid = Some exc →
       (∃ w3, _background_introspect update_filters CONF ironic node_info w
              = (inl (failed_to_power_on uuid exc), w3)
              ∧ db w3 = db w1)
       ∧ ∃ w4, _handle_exceptions update_filters CONF ironic node_info now w
               = (inr tt, w4)
               ∧ db w4 = delete_options uuid
                           (delete_attributes uuid
                              (update_finished uuid now
                                 (Some (str (failed_to_power_on uuid exc)))
                                 (db w1)))
               ∧ session_finished (db w1) (db w4) uuid now
                   (Some (str (failed_to_power_on uuid exc)))).
Proof.
  intros Hwl Hopt Hcred uuid.
  pose proof (whitelist_macs_nodes _ _ _ _ _ _ Hwl) as [Hn Hu1].
  specialize (Hu1 _ eq_refl).
  destruct (options_reads_only node_info1 w1) as (o' & self' & Hopt' & Hu2).
  rewrite Hopt' in Hopt. injection Hopt as -> -> <-.
  assert (∀ r w3,
            power_on ironic node_info2 w1 = (r, w3) →
            _background_introspect update_filters CONF ironic node_info w
            = (r, w3)) as Hbg.
  { intros r w3 Hp. unfold _background_introspect, bind.
    rewrite Hwl, Hopt'. cbn [fst snd]. rewrite Hcred. exact Hp. }
  assert (NodeInfo.uuid node_info2 = uuid) as Hu by (unfold uuid; congruence).
  split; [exact Hn|]. split.
  - intros exc Hboot Hpower.
    assert (power_on ironic node_info2 w1
            = (inr tt,
               World (db w1)
                     (log w1 ++ [Log WARNING (failed_to_set_boot_device uuid exc)]
                             ++ [Log INFO (started_successfully uuid)])))
      as Hp.
    { unfold power_on, bind, try_except, call_, raise, ret, LOG. cbv zeta.
      rewrite Hu, Hboot, Hpower. cbn [db log]. by rewrite <- app_assoc. }
    apply Hbg in Hp. split; [exact Hp|].
    unfold _handle_exceptions, try_except. rewrite Hp. eauto.
  - intros exc Hpower.
    destruct (power_on ironic node_info2 w1) as [r w3] eqn:Hp.
    pose proof (power_on_inv _ _ _ _ _ Hp) as [Hdb Hr]. rewrite Hu in Hr.
    destruct r as [e|[]]; [|congruence].
    destruct Hr as (exc' & Hpower' & ->).
    assert (exc' = exc) as -> by congruence.
    specialize (Hbg _ _ eq_refl). split; [eauto|].
    unfold _handle_exceptions, try_except. rewrite Hbg.
    cbn [is_utils_Error failed_to_power_on]. unfold bind.
    rewrite finished_eq. eexists. split; [reflexivity|].
    cbn [db]. rewrite Hdb. split; [done|]. apply finished_session_finished.
Qed.

Lemma power_on_failures_witness :
  ∃ w4 w4',
    _handle_exceptions (λ _, None) (Config 1000 5 true) ironic_no_boot_device
                       (NodeInfo.new "u1" 10) 50 store_created
    = (inr tt, w4)
    ∧ nodes_table (db w4) = [NodeRow "u1" 10 None None]
    ∧ _handle_exceptions (λ _, None) (Config 1000 5 true) ironic_no_power
                         (NodeInfo.new "u1" 10) 50 store_created
      = (inr tt, w4')
    ∧ NodeRow "u1" 10 (Some 50%Z)
        (Some (str (failed_to_power_on "u1" (OtherException (Lit "power")))))
      ∈ nodes_table (db w4').
Proof.
  pose (h1 := NodeInfo.Make "u1" 10 None None None (Some ["aa"; "bb"])).
  pose (o := ({[ "new_ipmi_credentials" := PyNone ]} : gmap string pyobj)).
  assert (truthy (default PyNone (o !! "new_ipmi_credentials")) = false)
    as Hcred.
  { vm_compute. reflexivity. }
  assert (whitelist_macs (λ _, None) ironic_no_boot_device
                         (NodeInfo.new "u1" 10) store_created
          = (inr h1,
             snd (whitelist_macs (λ _, None) ironic_no_boot_device
                                 (NodeInfo.new "u1" 10) store_created)))
    as Hwl.
  { rewrite (surjective_pairing (whitelist_macs _ _ _ _)) at 1.
    apply (f_equal (λ r, (r, _))). vm_compute. reflexivity. }
  assert (NodeInfo.options h1
            (snd (whitelist_macs (λ _, None) ironic_no_boot_device
                                 (NodeInfo.new "u1" 10) store_created))
          = (inr (o, NodeInfo.with_options h1 o),
             snd (whitelist_macs (λ _, None) ironic_no_boot_device
                                 (NodeInfo.new "u1" 10) store_created)))
    as Hopt.
  { vm_compute. reflexivity. }
  assert (whitelist_macs (λ _, None) ironic_no_power
                         (NodeInfo.new "u1" 10) store_created
          = (inr h1,
             snd (whitelist_macs (λ _, None) ironic_no_power
                                 (NodeInfo.new "u1" 10) store_created)))
    as Hwl'.
  { rewrite (surjective_pairing (whitelist_macs _ _ _ _)) at 1.
    apply (f_equal (λ r, (r, _))). vm_compute. reflexivity. }
  assert (NodeInfo.options h1
            (snd (whitelist_macs (λ _, None) ironic_no_power
                                 (NodeInfo.new "u1" 10) store_created))
          = (inr (o, NodeInfo.with_options h1 o),
             snd (whitelist_macs (λ _, None) ironic_no_power
                                 (NodeInfo.new "u1" 10) store_created)))
    as Hopt'.
  { vm_compute. reflexivity. }
  destruct (power_on_failures (λ _, None) (Config 1000 5 true)
              ironic_no_boot_device (NodeInfo.new "u1" 10) 50 store_created
              _ _ _ _ _ Hwl Hopt Hcred)
    as (_ & Hboot & _).
  destruct (Hboot (OtherException (Lit "boot device")) eq_refl eq_refl)
    as (_ & w4 & Hrun & _ & Hrows).
  destruct (power_on_failures (λ _, None) (Config 1000 5 true)
              ironic_no_power (NodeInfo.new "u1" 10) 50 store_created
              _ _ _ _ _ Hwl' Hopt' Hcred)
    as (Hn & _ & Hpower).
  destruct (Hpower (OtherException (Lit "power")) eq_refl)
    as (_ & w4' & Hrun' & _ & Hset & _).
  exists w4, w4'. split; [exact Hrun|]. split; [exact Hrows|].
  split; [exact Hrun'|].
  apply (Hset (NodeRow "u1" 10 None None)); [|reflexivity].
  rewrite Hn. apply elem_of_cons. by left.
Defined.

(** The two runs side by side: a failed boot device call leaves the
    session active, a failed power call finishes it. *)
Example power_on_failures_runs :
  nodes_table
    (db (snd (_handle_exceptions (λ _, None) (Config 1000 5 true)
                ironic_no_boot_device (NodeInfo.new "u1" 10) 50 store_created)))
  = [NodeRow "u1" 10 None None]
  ∧ nodes_table
      (db (snd (_handle_exceptions (λ _, None) (Config 1000 5 true)
                  ironic_no_power (NodeInfo.new "u1" 10) 50 store_created)))
    = [NodeRow "u1" 10 (Some 50%Z)
         (Some (str (failed_to_power_on "u1" (OtherException (Lit "power")))))].
Proof. split; by vm_compute. Qed.

(** * More of the cache *)

(** ** Primary keys are kept *)

Lemma update_finished_uuids u now err d :
  row_uuid <$> nodes_table (update_finished u now err d)
  = row_uuid <$> nodes_table d.
Proof.
  unfold update_finished. simpl. rewrite <- list_fmap_compose.
  apply list_fmap_ext. intros _ row _. simpl. by case_decide.
Qed.

Lemma finished_db_ok u now err d :
  db_ok d →
  db_ok (delete_options u (delete_attributes u (update_finished u now err d))).
Proof.
  intros [Hn Ha Ho]. split.
  - change (NoDup (row_uuid <$> nodes_table (update_finished u now err d))).
    by rewrite update_finished_uuids.
  - simpl. by apply NoDup_fmap_filter.
  - simpl. by apply NoDup_fmap_filter.
Qed.

Lemma sweep_db_ok CONF now1 now2 now3 d :
  db_ok d → db_ok (sweep CONF now1 now2 now3 d).
Proof.
  intros [Hn Ha Ho]. split; simpl.
  - rewrite <- list_fmap_compose.
    rewrite (list_fmap_ext (row_uuid ∘ sweep_row CONF now2 now3) row_uuid)
      by (intros _ row _; apply sweep_row_uuid).
    by apply NoDup_fmap_filter.
  - by apply NoDup_fmap_filter.
  - by apply NoDup_fmap_filter.
Qed.

Lemma set_option_db_ok u name j d :
  db_ok d →
  db_ok (set_options d
           (filter (λ r, ¬ (opt_uuid r = u ∧ opt_name r = name)) (options_table d)
              ++ [OptionRow u name j])).
Proof.
  intros [Hn Ha Ho]. split; simpl; [done|done|].
  rewrite fmap_app. apply NoDup_app. split; [|split].
  - by apply NoDup_fmap_filter.
  - intros k (o & -> & Hin)%list_elem_of_fmap.
    apply list_elem_of_filter in Hin as [Hne _]. simpl.
    intros [= Hu Hname]%list_elem_of_singleton. by destruct Hne.
  - apply NoDup_singleton.
Qed.

Lemma add_node_db_ok uuid attributes now w r w' :
  add_node uuid attributes now w = (r, w') → db_ok (db w) → db_ok (db w').
Proof.
  intros Hadd Hok. apply add_node_inv in Hadd.
  destruct r as [e|node_info].
  - destruct Hadd as [-> _]. done.
  - destruct Hadd as (_ & Hn & _ & Ho & Hnd). destruct Hok as [Hkn Hka Hko].
    split.
    + rewrite Hn, fmap_app. apply NoDup_app. split; [|split].
      * by apply NoDup_fmap_filter.
      * intros u (row & -> & Hrow)%list_elem_of_fmap.
        apply list_elem_of_filter in Hrow as [Hne _]. simpl.
        by intros Heq%list_elem_of_singleton.
      * apply NoDup_singleton.
    + by apply Hnd.
    + rewrite Ho. by apply NoDup_fmap_filter.
Qed.

(** X1.  Every operation that writes to the cache keeps the primary keys
    of the three tables: [add_node], [add_attribute] on a connection of its
    own, [set_option], [finished] and [clean_up], whether they return or
    raise. *)
Theorem operations_keep_primary_keys w :
  db_ok (db w) →
  (∀ uuid attributes now, db_ok (db (snd (add_node uuid attributes now w))))
  ∧ (∀ self name value,
       db_ok (db (snd (NodeInfo.add_attribute self name value false w))))
  ∧ (∀ self name value, db_ok (db (snd (NodeInfo.set_option self name value w))))
  ∧ (∀ self error now, db_ok (db (snd (NodeInfo.finished self error now w))))
  ∧ (∀ CONF now1 now2 now3, db_ok (db (snd (clean_up CONF now1 now2 now3 w)))).
Proof.
  intros Hok. split; [|split; [|split; [|split]]].
  - intros uuid attributes now.
    destruct (add_node uuid attributes now w) as [r w'] eqn:Hadd.
    by eapply add_node_db_ok.
  - intros self name value.
    destruct (NodeInfo.add_attribute self name value false w) as [r w'] eqn:Hadd.
    pose proof Hadd as Hinv.
    apply add_attribute_inv in Hinv as (Hn & Ho & Hr). simpl.
    destruct r as [e|[]].
    + destruct Hr as [_ Hdb]. by rewrite Hdb.
    + destruct Hok as [Hkn Hka Hko]. split.
      * by rewrite Hn.
      * by eapply add_attribute_keeps_keys.
      * by rewrite Ho.
  - intros self name value.
    destruct (set_option_eq self name value w)
      as (o & self0 & w0 & _ & _ & _ & ->).
    simpl. by apply set_option_db_ok.
  - intros self error now. rewrite finished_eq. simpl.
    by apply finished_db_ok.
  - intros CONF now1 now2 now3.
    destruct (clean_up_eq CONF now1 now2 now3 w) as (w' & -> & Hdb).
    simpl. rewrite Hdb. by apply sweep_db_ok.
Qed.

Lemma operations_keep_primary_keys_witness :
  db_ok (db (snd (add_node "u2" [("mac", Some (Many ["bb"; "cc"]))] 30 store_one)))
  ∧ db_ok (db (snd (clean_up (Config 1000 5 true) 100 100 101 store_one))).
Proof.
  destruct (operations_keep_primary_keys store_one store_one_ok)
    as (Hadd & _ & _ & _ & Hsweep).
  split; [apply Hadd|apply Hsweep].
Defined.

(** ** Looking a session up by its id *)

Lemma get_node_some row w :
  db_ok (db w) → row ∈ nodes_table (db w) →
  get_node (row_uuid row) w = (inr (NodeInfo.from_row row), w).
Proof.
  intros Hok Hrow. unfold get_node, bind, get_db.
  destruct (select_node_some _ _ Hok Hrow) as (rows & ->). done.
Qed.

Lemma get_node_none uuid w :
  (∀ row, row ∈ nodes_table (db w) → row_uuid row ≠ uuid) →
  get_node uuid w = (inl (not_in_cache uuid), w).
Proof.
  intros Hno. unfold get_node, bind, get_db.
  by rewrite (select_node_none _ _ Hno).
Qed.

(** X2.  After [finished], [get_node] still finds the session: the handle
    carries the [started_at] of the row, the time of the call as
    [finished_at] and the error passed in; the session has no option and no
    attribute left.  A session that had no row gets none: [get_node] raises
    the 404 error. *)
Theorem finished_then_get_node self error now w :
  db_ok (db w) →
  let w' := snd (NodeInfo.finished self error now w) in
  let uuid := NodeInfo.uuid self in
  (∀ row, row ∈ nodes_table (db w) → row_uuid row = uuid →
     get_node uuid w'
     = (inr (NodeInfo.Make uuid (row_started_at row) (Some now) error None None),
        w'))
  ∧ ((∀ row, row ∈ nodes_table (db w) → row_uuid row ≠ uuid) →
     get_node uuid w' = (inl (not_in_cache uuid), w'))
  ∧ stored_options (db w') uuid = ∅
  ∧ (∀ a, a ∈ attributes_table (db w') → attr_uuid a ≠ uuid).
Proof.
  intros Hok w' uuid. subst w'. rewrite finished_eq. cbn [snd].
  set (w' := World _ _).
  assert (db_ok (db w')) as Hok' by (by apply finished_db_ok).
  assert (∀ row', row' ∈ nodes_table (db w') ↔
            ∃ row, row ∈ nodes_table (db w)
                   ∧ row' = if decide (row_uuid row = uuid)
                            then NodeRow (row_uuid row) (row_started_at row)
                                         (Some now) error
                            else row) as Hrows.
  { intros row'. apply elem_of_update_finished. }
  split; [|split; [|split]].
  - intros row Hrow Hu.
    assert (NodeRow uuid (row_started_at row) (Some now) error
              ∈ nodes_table (db w')) as Hin.
    { apply Hrows. exists row. split; [done|]. rewrite decide_True by done.
      by rewrite Hu. }
    apply (get_node_some _ _ Hok') in Hin. exact Hin.
  - intros Hno. apply get_node_none. intros row' (row & Hrow & ->)%Hrows.
    rewrite decide_False by auto. auto.
  - unfold stored_options. subst w'. simpl.
    rewrite filter_none; [done|].
    intros o Ho Hu. by apply list_elem_of_filter in Ho as [Hne _].
  - intros a Ha. subst w'. simpl in Ha.
    by apply list_elem_of_filter in Ha as [Hne _].
Qed.

Lemma finished_then_get_node_witness :
  get_node "u1"
    (snd (NodeInfo.finished (NodeInfo.new "u1" 10) (Some (Lit "failed")) 50
                            store_one))
  = (inr (NodeInfo.Make "u1" 10 (Some 50%Z) (Some (Lit "failed")) None None),
     snd (NodeInfo.finished (NodeInfo.new "u1" 10) (Some (Lit "failed")) 50
                            store_one)).
Proof.
  destruct (finished_then_get_node (NodeInfo.new "u1" 10) (Some (Lit "failed"))
              50 store_one store_one_ok) as (Hget & _).
  apply (Hget (NodeRow "u1" 10 None None)).
  - apply elem_of_cons. by left.
  - reflexivity.
Defined.

(** X3.  After a successful [add_node], [get_node] returns the fresh
    session (started now, not finished, no error), and every other session
    as it was. *)
Theorem add_node_then_get_node uuid attributes now w node_info w' :
  db_ok (db w) →
  add_node uuid attributes now w = (inr node_info, w') →
  get_node uuid w' = (inr (NodeInfo.new uuid now), w')
  ∧ ∀ row, row ∈ nodes_table (db w) → row_uuid row ≠ uuid →
      get_node (row_uuid row) w' = (inr (NodeInfo.from_row row), w').
Proof.
  intros Hok Hadd.
  pose proof (add_node_db_ok _ _ _ _ _ _ Hadd Hok) as Hok'.
  apply add_node_inv in Hadd as (_ & Hn & _).
  split.
  - apply (get_node_some (NodeRow uuid now None None) w' Hok').
    rewrite Hn. apply elem_of_app. right. by apply list_elem_of_singleton.
  - intros row Hrow Hne. apply (get_node_some row w' Hok').
    rewrite Hn. apply elem_of_app. left. by apply list_elem_of_filter.
Qed.

Lemma add_node_then_get_node_witness :
  get_node "u2" (snd (add_node "u2" [("mac", Some (Single "bb"))] 30 store_one))
  = (inr (NodeInfo.new "u2" 30),
     snd (add_node "u2" [("mac", Some (Single "bb"))] 30 store_one)).
Proof.
  refine (proj1 (add_node_then_get_node "u2" [("mac", Some (Single "bb"))] 30
                   store_one (NodeInfo.new "u2" 30) _ store_one_ok _)).
  rewrite (surjective_pairing (add_node _ _ _ _)) at 1.
  apply (f_equal (λ r, (r, _))). vm_compute. reflexivity.
Defined.

(** X4.  After [clean_up], [get_node] raises the 404 error for a session
    whose [finished_at] was older than the retention time; it shows a
    session that timed out as finished at the time of the sweep with the
    error "Introspection timeout"; and it shows any other session as it
    was. *)
Theorem clean_up_then_get_node CONF now1 now2 now3 w row :
  db_ok (db w) → row ∈ nodes_table (db w) →
  let w' := snd (clean_up CONF now1 now2 now3 w) in
  (expired CONF now1 row →
   get_node (row_uuid row) w' = (inl (not_in_cache (row_uuid row)), w'))
  ∧ ((0 < timeout CONF)%Z → stale CONF now2 row →
     get_node (row_uuid row) w'
     = (inr (NodeInfo.Make (row_uuid row) (row_started_at row) (Some now3)
                           (Some (Lit "Introspection timeout")) None None),
        w'))
  ∧ (¬ expired CONF now1 row → ¬ ((0 < timeout CONF)%Z ∧ stale CONF now2 row) →
     get_node (row_uuid row) w' = (inr (NodeInfo.from_row row), w')).
Proof.
  intros Hok Hrow w'. subst w'.
  destruct (clean_up_eq CONF now1 now2 now3 w) as (w' & -> & Hdb). cbn [snd].
  assert (db_ok (db w')) as Hok' by (rewrite Hdb; by apply sweep_db_ok).
  assert (¬ expired CONF now1 row →
          sweep_row CONF now2 now3 row ∈ nodes_table (db w')) as Hin.
  { intros Hne. rewrite Hdb. simpl. apply list_elem_of_fmap. exists row.
    split; [done|]. by apply list_elem_of_filter. }
  split; [|split].
  - intros Hexp. apply get_node_none. intros row' Hrow' Hu.
    rewrite Hdb in Hrow'. simpl in Hrow'.
    apply list_elem_of_fmap in Hrow' as (row0 & -> & Hrow0).
    apply list_elem_of_filter in Hrow0 as [Hne Hrow0].
    rewrite sweep_row_uuid in Hu.
    assert (row0 = row) as ->
      by (apply (NoDup_fmap_elem_inj row_uuid (nodes_table (db w)));
          [apply Hok|done..]).
    done.
  - intros Hpos Hst.
    assert (¬ expired CONF now1 row) as Hne
      by (by eapply timed_out_not_finished_before).
    specialize (Hin Hne). unfold sweep_row in Hin.
    rewrite decide_True in Hin by done.
    apply (get_node_some _ _ Hok') in Hin. exact Hin.
  - intros Hne Hns. specialize (Hin Hne). unfold sweep_row in Hin.
    rewrite decide_False in Hin by done.
    by apply (get_node_some _ _ Hok') in Hin.
Qed.

Lemma clean_up_then_get_node_witness :
  get_node "u1" (snd (clean_up (Config 1000 5 true) 100 100 101 store_one))
  = (inr (NodeInfo.Make "u1" 10 (Some 101%Z)
                        (Some (Lit "Introspection timeout")) None None),
     snd (clean_up (Config 1000 5 true) 100 100 101 store_one)).
Proof.
  destruct (clean_up_then_get_node (Config 1000 5 true) 100 100 101 store_one
              (NodeRow "u1" 10 None None) store_one_ok)
    as (_ & Hst & _).
  - apply elem_of_cons. by left.
  - apply Hst; [reflexivity|]. split; [reflexivity|reflexivity].
Defined.

(** ** Looking a session up after the cache has changed *)

(** One candidate with an active row: the handle. *)
Lemma find_node_one_candidate attributes w u row :
  db_ok (db w) →
  matches (db w) attributes u →
  (∀ u', matches (db w) attributes u' → u' = u) →
  row ∈ nodes_table (db w) → row_uuid row = u → row_finished_at row = None →
  fst (find_node attributes w) = inr (NodeInfo.new u (row_started_at row)).
Proof.
  intros Hok Hu Huniq Hrow Hrow_u Hactive. unfold find_node, bind.
  destruct (find_node_found attributes w) as (w1 & -> & Hdb1).
  assert (candidates (db w) attributes = {[u]}) as ->.
  { apply set_eq. intros u'. rewrite elem_of_singleton, elem_of_candidates.
    split; [by apply Huniq|by intros ->]. }
  rewrite size_singleton, elements_singleton. simpl.
  unfold bind, get_db. rewrite Hdb1. subst u.
  destruct (select_node_some _ _ Hok Hrow) as (rows & ->).
  by rewrite Hactive.
Qed.

(** The candidates for one value of one name are the holders of the
    pair. *)
Lemma matches_single d name value v u :
  as_list value = [v] → is_empty (Some value) = false →
  matches d [(name, Some value)] u ↔
  ∃ a, a ∈ attributes_table d ∧ attr_key a = (name, v) ∧ attr_uuid a = u.
Proof.
  intros Hv He. unfold matches, attr_key. split.
  - intros (name' & value' & a & Hitem & _ & Ha & Hn & Hval & Hu).
    apply list_elem_of_singleton in Hitem. injection Hitem as -> ->.
    rewrite Hv in Hval. apply list_elem_of_singleton in Hval.
    exists a. repeat split; auto. congruence.
  - intros (a & Ha & [= Hn Hval] & Hu).
    exists name, value, a. repeat split; auto.
    + by apply list_elem_of_singleton.
    + rewrite Hv. by apply list_elem_of_singleton.
Qed.

(** A pair that nobody holds is not found. *)
Lemma find_node_no_holder name value v w :
  as_list value = [v] →
  (∀ a, a ∈ attributes_table (db w) → attr_key a ≠ (name, v)) →
  fst (find_node [(name, Some value)] w)
  = inl (could_not_find_a_node [(name, Some value)]).
Proof.
  intros Hv Hfree. apply find_node_no_candidate.
  intros u (name' & value' & a & Hitem & _ & Ha & Hn & Hval & _).
  apply list_elem_of_singleton in Hitem. injection Hitem as -> ->.
  rewrite Hv in Hval. apply list_elem_of_singleton in Hval.
  apply (Hfree a Ha). unfold attr_key. congruence.
Qed.

(** X5.  After a successful [add_node], looking up any non-empty value
    the new session claims returns a handle on the new session, with its
    [started_at]. *)
Theorem add_node_then_find_node uuid attributes now w node_info w' a :
  db_ok (db w) →
  add_node uuid attributes now w = (inr node_info, w') →
  claims uuid attributes a →
  attr_value a ≠ EmptyString →
  fst (find_node [(attr_name a, Some (Single (attr_value a)))] w')
  = inr (NodeInfo.new uuid now).
Proof.
  intros Hok Hadd Hclaim Hne.
  pose proof (add_node_db_ok _ _ _ _ _ _ Hadd Hok) as Hok'.
  apply add_node_inv in Hadd as (_ & Hn & Ha & _).
  assert (a ∈ attributes_table (db w')) as Hin.
  { rewrite Ha. apply elem_of_app. right. by apply elem_of_initial_attributes. }
  assert (attr_uuid a = uuid) as Hu by (by destruct Hclaim as (? & ? & ? & ? & ? & ? & ?)).
  assert (is_empty (Some (Single (attr_value a))) = false) as He.
  { simpl. by apply String.eqb_neq. }
  apply (find_node_one_candidate _ w' uuid (NodeRow uuid now None None) Hok').
  - apply (matches_single _ _ _ (attr_value a)); [done|done|]. eauto.
  - intros u' (a' & Ha' & Hkey & <-)%(matches_single _ _ _ (attr_value a));
      [|done|done].
    assert (a' = a) as ->
      by (apply (NoDup_fmap_elem_inj attr_key (attributes_table (db w')));
          [apply Hok'|done..]).
    done.
  - rewrite Hn. apply elem_of_app. right. by apply list_elem_of_singleton.
  - reflexivity.
  - reflexivity.
Qed.

Lemma add_node_then_find_node_witness :
  fst (find_node [("mac", Some (Single "bb"))]
         (snd (add_node "u2" [("mac", Some (Many ["bb"; "cc"]))] 30 store_one)))
  = inr (NodeInfo.new "u2" 30).
Proof.
  refine (add_node_then_find_node "u2" [("mac", Some (Many ["bb"; "cc"]))] 30
            store_one (NodeInfo.new "u2" 30) _ (AttributeRow "mac" "bb" "u2")
            store_one_ok _ _ _).
  - rewrite (surjective_pairing (add_node _ _ _ _)) at 1.
    apply (f_equal (λ r, (r, _))). vm_compute. reflexivity.
  - exists "mac", (Many ["bb"; "cc"]). repeat split; by_computation.
  - discriminate.
Defined.

(** X6.  After [finished], looking up a value the session held fails with
    the not-found error: the attribute rows are gone, so the look up does
    not get as far as the already-finished error. *)
Theorem finished_then_find_node self error now w a value :
  db_ok (db w) →
  a ∈ attributes_table (db w) → attr_uuid a = NodeInfo.uuid self →
  as_list value = [attr_value a] →
  fst (find_node [(attr_name a, Some value)]
                 (snd (NodeInfo.finished self error now w)))
  = inl (could_not_find_a_node [(attr_name a, Some value)]).
Proof.
  intros Hok Ha Hu Hv. rewrite finished_eq. cbn [snd].
  apply (find_node_no_holder _ _ (attr_value a)); [done|].
  intros a' Ha' Hkey. simpl in Ha'.
  apply list_elem_of_filter in Ha' as [Hne Ha'].
  assert (a' = a) as ->
    by (apply (NoDup_fmap_elem_inj attr_key (attributes_table (db w)));
        [apply Hok|done..]).
  done.
Qed.

Lemma finished_then_find_node_witness :
  fst (find_node [("mac", Some (Single "aa"))]
         (snd (NodeInfo.finished (NodeInfo.new "u1" 10) None 50 store_one)))
  = inl (could_not_find_a_node [("mac", Some (Single "aa"))]).
Proof.
  apply (finished_then_find_node (NodeInfo.new "u1" 10) None 50 store_one
           (AttributeRow "mac" "aa" "u1") (Single "aa") store_one_ok).
  - by_computation.
  - reflexivity.
  - reflexivity.
Defined.

(** X7.  After [clean_up], looking up a value held by a session that the
    sweep timed out fails with the not-found error. *)
Theorem clean_up_then_find_node CONF now1 now2 now3 w row a value :
  db_ok (db w) →
  (0 < timeout CONF)%Z →
  row ∈ nodes_table (db w) → stale CONF now2 row →
  a ∈ attributes_table (db w) → attr_uuid a = row_uuid row →
  as_list value = [attr_value a] →
  fst (find_node [(attr_name a, Some value)]
                 (snd (clean_up CONF now1 now2 now3 w)))
  = inl (could_not_find_a_node [(attr_name a, Some value)]).
Proof.
  intros Hok Hpos Hrow Hst Ha Hu Hv.
  destruct (clean_up_eq CONF now1 now2 now3 w) as (w' & -> & Hdb). cbn [snd].
  apply (find_node_no_holder _ _ (attr_value a)); [done|].
  intros a' Ha' Hkey. rewrite Hdb in Ha'. simpl in Ha'.
  apply list_elem_of_filter in Ha' as [Hne Ha'].
  assert (a' = a) as ->
    by (apply (NoDup_fmap_elem_inj attr_key (attributes_table (db w)));
        [apply Hok|done..]).
  apply Hne. unfold timed_out_ids. rewrite decide_True by done.
  rewrite Hu. apply list_elem_of_fmap. exists row. split; [done|].
  by apply list_elem_of_filter.
Qed.

Lemma clean_up_then_find_node_witness :
  fst (find_node [("mac", Some (Single "aa"))]
         (snd (clean_up (Config 1000 5 true) 100 100 101 store_one)))
  = inl (could_not_find_a_node [("mac", Some (Single "aa"))]).
Proof.
  apply (clean_up_then_find_node (Config 1000 5 true) 100 100 101 store_one
           (NodeRow "u1" 10 None None) (AttributeRow "mac" "aa" "u1")
           (Single "aa") store_one_ok).
  - reflexivity.
  - apply elem_of_cons. by left.
  - split; reflexivity.
  - by_computation.
  - reflexivity.
  - reflexivity.
Defined.

(** X8.  Criteria without a usable value (no criterion at all, or only
    [None], empty strings and empty lists) find nothing, whatever the cache
    holds: the look up raises the not-found error and writes nothing. *)
Theorem find_node_empty_criteria attributes w :
  (∀ item, item ∈ attributes → is_empty (snd item) = true) →
  ∃ w', find_node attributes w = (inl (could_not_find_a_node attributes), w')
        ∧ db w' = db w.
Proof.
  intros Hempty.
  destruct (find_node attributes w) as [r w'] eqn:Hfind. exists w'.
  pose proof (find_node_no_candidate attributes w) as Hnone.
  pose proof (find_node_reads_only attributes w) as Hdb.
  rewrite Hfind in Hnone, Hdb. simpl in Hnone, Hdb.
  rewrite Hnone; [done|].
  intros u (name & value & a & Hitem & He & _).
  apply Hempty in Hitem. cbn [snd] in Hitem. congruence.
Qed.

Lemma find_node_empty_criteria_witness :
  ∃ w', find_node [("bmc_address", None); ("mac", Some (Many []))] store_one
        = (inl (could_not_find_a_node
                  [("bmc_address", None); ("mac", Some (Many []))]), w')
        ∧ db w' = db store_one.
Proof.
  apply find_node_empty_criteria.
  intros item [->|Hitem]%elem_of_cons; [reflexivity|].
  apply list_elem_of_singleton in Hitem. by subst.
Defined.

(** ** When attributes can be attached *)

Lemma executemany_insert_ok name u values w :
  NoDup values →
  (∀ v, v ∈ values → (name, v) ∉ (attr_key <$> attributes_table (db w))) →
  ∃ w', executemany (λ v, execute_insert (insert_attribute name v u)) values w
        = (inr tt, w').
Proof.
  revert w. induction values as [|v vs IH]; intros w Hnd Hfresh; simpl.
  - unfold ret. eauto.
  - apply NoDup_cons in Hnd as [Hv Hnd].
    unfold bind, execute_insert.
    destruct (insert_attribute name v u (db w)) as [d|] eqn:Hins.
    + apply insert_attribute_Some in Hins as [_ ->].
      apply IH; [done|]. intros v' Hv'. simpl. rewrite fmap_app.
      intros [Hold|Hnew]%elem_of_app.
      * apply (Hfresh v'); [|done]. apply elem_of_cons. auto.
      * simpl in Hnew. apply list_elem_of_singleton in Hnew.
        injection Hnew as ->. done.
    + apply insert_attribute_None in Hins.
      destruct (Hfresh v); [apply elem_of_cons; auto|done].
Qed.

Lemma add_attribute_ok self name value database w :
  NoDup (as_list value) →
  (∀ v, v ∈ as_list value →
        (name, v) ∉ (attr_key <$> attributes_table (db w))) →
  ∃ w', NodeInfo.add_attribute self name value database w = (inr tt, w').
Proof.
  intros Hnd Hfresh.
  destruct (executemany_insert_ok name (NodeInfo.uuid self) _ w Hnd Hfresh)
    as (w' & Hrun).
  unfold NodeInfo.add_attribute, _maybe_db, with_db, try_except. cbv zeta.
  destruct database; rewrite Hrun; eauto.
Qed.

(** X9.  [add_attribute] returns exactly when the values are pairwise
    distinct and none of the pairs is in the attributes table yet; it then
    appends one row per value, in order, and touches nothing else.  A value
    listed twice is enough to make it raise, even on an empty table. *)
Theorem add_attribute_succeeds_iff self name value w :
  (∃ w', NodeInfo.add_attribute self name value false w = (inr tt, w'))
  ↔ NoDup (as_list value)
    ∧ ∀ v, v ∈ as_list value →
           (name, v) ∉ (attr_key <$> attributes_table (db w)).
Proof.
  split.
  - intros (w' & Hadd). apply add_attribute_inv in Hadd as (_ & _ & _ & Hnd & Hfresh & _).
    done.
  - intros [Hnd Hfresh]. by apply add_attribute_ok.
Qed.

Lemma add_attribute_succeeds_iff_witness :
  (∃ w', NodeInfo.add_attribute (NodeInfo.new "u2" 30) "mac"
                                (Many ["bb"; "cc"]) false store_one
         = (inr tt, w'))
  ∧ ¬ (∃ w', NodeInfo.add_attribute (NodeInfo.new "u2" 30) "mac"
                                    (Many ["bb"; "bb"]) false store_empty
             = (inr tt, w')).
Proof.
  split.
  - apply add_attribute_succeeds_iff. split; [by_computation|].
    intros v Hv. apply elem_of_cons in Hv as [->|Hv]; [by_computation|].
    apply list_elem_of_singleton in Hv as ->. by_computation.
  - intros [Hnd _]%add_attribute_succeeds_iff. simpl in Hnd.
    apply NoDup_cons in Hnd as [Hin _]. apply Hin, elem_of_cons. by left.
Defined.

Lemma add_node_loop_ok node_info items w :
  NoDup (attr_key <$> (attributes_table (db w)
                         ++ initial_attributes (NodeInfo.uuid node_info) items)) →
  ∃ w', for_loop items (add_node_step node_info) tt w = (inr tt, w').
Proof.
  revert w. induction items as [|item items IH]; intros w Hnd; cbn [for_loop].
  - unfold ret. eauto.
  - unfold bind. unfold initial_attributes in Hnd. simpl in Hnd.
    fold (initial_attributes (NodeInfo.uuid node_info) items) in Hnd.
    unfold add_node_step, item_attributes in *.
    destruct (is_empty (snd item)).
    { unfold ret. simpl in Hnd. by apply IH. }
    destruct (snd item) as [value|].
    2:{ unfold ret. simpl in Hnd. by apply IH. }
    rewrite app_assoc, fmap_app in Hnd.
    pose proof Hnd as Hnd0. apply NoDup_app in Hnd0 as (Hnd1 & _ & _).
    rewrite fmap_app, new_attributes_keys in Hnd1.
    apply NoDup_app in Hnd1 as (_ & Hdisj & Hnew).
    destruct (add_attribute_ok node_info (fst item) value true w)
      as (w1 & Hadd).
    + by apply NoDup_fmap_1 in Hnew.
    + intros v Hv Hk. apply (Hdisj _ Hk). apply list_elem_of_fmap. eauto.
    + rewrite Hadd.
      apply add_attribute_inv in Hadd as (_ & _ & Ha & _).
      apply IH. rewrite Ha. by rewrite <- fmap_app in Hnd.
Qed.

(** X10.  On a database that respects its primary keys, [add_node]
    returns exactly when the pairs of the non-empty initial attributes are
    pairwise distinct and none of them is held by another session; what the
    session itself held before does not count, since it is deleted first. *)
Theorem add_node_succeeds_iff uuid attributes now w :
  db_ok (db w) →
  (∃ node_info w', add_node uuid attributes now w = (inr node_info, w'))
  ↔ NoDup (attr_key <$> initial_attributes uuid attributes)
    ∧ free_for (db w) uuid (initial_attributes uuid attributes).
Proof.
  intros Hok. split.
  - intros (node_info & w' & Hadd).
    apply add_node_inv in Hadd as (_ & _ & Ha & _ & Hnd).
    specialize (Hnd (ok_attributes _ Hok)).
    rewrite Ha, fmap_app in Hnd. apply NoDup_app in Hnd as (_ & Hdisj & Hnew).
    split; [done|]. intros a a' Hin Hin' Hkey.
    destruct (decide (attr_uuid a' = uuid)) as [|Hne]; [done|].
    destruct (Hdisj (attr_key a')).
    + apply list_elem_of_fmap. exists a'. split; [done|].
      by apply list_elem_of_filter.
    + rewrite Hkey. apply list_elem_of_fmap. eauto.
  - intros [Hnew Hfree].
    unfold add_node, with_db, bind. rewrite !execute_eq. cbv beta iota.
    unfold execute_insert. cbn [db log]. rewrite insert_node_after_delete.
    destruct (add_node_loop_ok (NodeInfo.new uuid now) attributes
                (World (MkDB (filter (λ r, row_uuid r ≠ uuid) (nodes_table (db w))
                                ++ [NodeRow uuid now None None])
                             (filter (λ a, attr_uuid a ≠ uuid)
                                     (attributes_table (db w)))
                             (filter (λ o, opt_uuid o ≠ uuid)
                                     (options_table (db w))))
                       (log w))) as (w' & Hloop).
    + cbn [db attributes_table NodeInfo.uuid NodeInfo.new].
      rewrite fmap_app. apply NoDup_app. split; [|split; [|done]].
      * apply NoDup_fmap_filter, Hok.
      * intros k (a' & -> & Hin')%list_elem_of_fmap
                 (a & Hkey & Hin)%list_elem_of_fmap.
        apply list_elem_of_filter in Hin' as [Hne Hin'].
        apply Hne. by apply (Hfree a a').
    + rewrite Hloop. unfold ret. eauto.
Qed.

Lemma add_node_succeeds_iff_witness :
  ∃ node_info w',
    add_node "u1" [("mac", Some (Many ["aa"; "bb"]))] 30 store_one
    = (inr node_info, w').
Proof.
  apply (add_node_succeeds_iff "u1" [("mac", Some (Many ["aa"; "bb"]))] 30
           store_one store_one_ok).
  split; [by_computation|].
  intros a a' Ha Ha' Hkey. simpl in Ha'.
  apply elem_of_cons in Ha' as [->|Ha']; [reflexivity|].
  apply list_elem_of_singleton in Ha' as ->. reflexivity.
Defined.

(** X11.  Finishing a session frees its attribute values: pairwise
    distinct values that no other session holds can be attached by any
    session right after [finished], although they could not before if the
    finished session held one of them. *)
Theorem finished_frees_values self error now other name values w :
  db_ok (db w) →
  NoDup values →
  (∀ v a, v ∈ values → a ∈ attributes_table (db w) →
          attr_key a = (name, v) → attr_uuid a = NodeInfo.uuid self) →
  ∃ w', NodeInfo.add_attribute other name (Many values) false
                               (snd (NodeInfo.finished self error now w))
        = (inr tt, w').
Proof.
  intros Hok Hnd Hheld. apply add_attribute_ok; [done|].
  intros v Hv (a & Hkey & Ha)%list_elem_of_fmap.
  rewrite finished_eq in Ha. simpl in Ha.
  apply list_elem_of_filter in Ha as [Hne Ha].
  apply Hne. by apply (Hheld v a).
Qed.

Lemma finished_frees_values_witness :
  ∃ w', NodeInfo.add_attribute (NodeInfo.new "u2" 60) "mac" (Many ["aa"]) false
          (snd (NodeInfo.finished (NodeInfo.new "u1" 10) None 50 store_one))
        = (inr tt, w').
Proof.
  apply (finished_frees_values (NodeInfo.new "u1" 10) None 50
           (NodeInfo.new "u2" 60) "mac" ["aa"] store_one store_one_ok).
  - by_computation.
  - intros v a Hv Ha _. simpl in Ha.
    apply elem_of_cons in Ha as [->|Ha]; [reflexivity|].
    apply list_elem_of_singleton in Ha as ->. reflexivity.
Defined.

(** ** The MAC's on introspection *)

Lemma active_macs_eq w :
  active_macs w
  = (inr (list_to_set
            (attr_value <$>
               filter (λ a, attr_name a = MACS_ATTRIBUTE)
                      (attributes_table (db w)))), w).
Proof. reflexivity. Qed.

(** X12.  [active_macs] after [finished] is the set of the MAC's of the
    other sessions: it never raises, and on a database that respects its
    primary keys no MAC of the finished session is left in it. *)
Theorem finished_then_active_macs self error now w :
  ∃ macs w',
    active_macs (snd (NodeInfo.finished self error now w)) = (inr macs, w')
    ∧ (∀ v, v ∈ macs ↔
            ∃ a, a ∈ attributes_table (db w)
                 ∧ attr_name a = MACS_ATTRIBUTE ∧ attr_value a = v
                 ∧ attr_uuid a ≠ NodeInfo.uuid self)
    ∧ (db_ok (db w) →
       ∀ a, a ∈ attributes_table (db w) → attr_name a = MACS_ATTRIBUTE →
            attr_uuid a = NodeInfo.uuid self → attr_value a ∉ macs).
Proof.
  rewrite active_macs_eq, finished_eq. eexists _, _. split; [reflexivity|].
  cbn [snd db delete_options delete_attributes set_options set_attributes
       attributes_table].
  assert (∀ v, v ∈ (list_to_set
                      (attr_value <$>
                         filter (λ a, attr_name a = MACS_ATTRIBUTE)
                           (filter (λ a, attr_uuid a ≠ NodeInfo.uuid self)
                              (attributes_table
                                 (update_finished (NodeInfo.uuid self) now
                                    error (db w))))) : gset string) ↔
               ∃ a, a ∈ attributes_table (db w)
                    ∧ attr_name a = MACS_ATTRIBUTE ∧ attr_value a = v
                    ∧ attr_uuid a ≠ NodeInfo.uuid self) as Hmacs.
  { intros v. rewrite elem_of_list_to_set, list_elem_of_fmap. split.
    - intros (a & -> & Ha). apply list_elem_of_filter in Ha as [Hmac Ha].
      apply list_elem_of_filter in Ha as [Hne Ha]. eauto.
    - intros (a & Ha & Hmac & <- & Hne). exists a. split; [done|].
      apply list_elem_of_filter. split; [done|].
      by apply list_elem_of_filter. }
  split; [exact Hmacs|].
  intros Hok a Ha Hmac Hu (a' & Ha' & Hmac' & Hv & Hne)%Hmacs.
  assert (a' = a) as ->.
  { apply (NoDup_fmap_elem_inj attr_key (attributes_table (db w)));
      [apply Hok|done..|]. unfold attr_key. congruence. }
  done.
Qed.

Lemma finished_then_active_macs_witness :
  ∃ macs w',
    active_macs (snd (NodeInfo.finished (NodeInfo.new "u1" 10) None 50 store_two))
    = (inr macs, w')
    ∧ "bb" ∈ macs ∧ "aa" ∉ macs.
Proof.
  destruct (finished_then_active_macs (NodeInfo.new "u1" 10) None 50 store_two)
    as (macs & w' & Hrun & Hmacs & Hfreed).
  exists macs, w'. split; [exact Hrun|]. split.
  - apply Hmacs. exists (AttributeRow "mac" "bb" "u2").
    repeat split; [by_computation|discriminate].
  - apply (Hfreed ltac:(split; by_computation) (AttributeRow "mac" "aa" "u1"));
      [by_computation|reflexivity|reflexivity].
Defined.

(** ** Options *)

Lemma options_dict_app rows row :
  NodeInfo.options_dict (rows ++ [row])
  = <[opt_name row := json_loads (opt_value row)]> (NodeInfo.options_dict rows).
Proof. unfold NodeInfo.options_dict. by rewrite foldl_app. Qed.

(** Leaving the rows of one name out deletes the name from the
    dictionary. *)
Lemma options_dict_without name rows :
  NodeInfo.options_dict (filter (λ r, opt_name r ≠ name) rows)
  = delete name (NodeInfo.options_dict rows).
Proof.
  induction rows as [|row rows IH] using rev_ind.
  - unfold NodeInfo.options_dict. simpl. by rewrite delete_empty.
  - rewrite filter_app, options_dict_app. simpl.
    destruct (decide (opt_name row ≠ name)) as [Hne|Heq].
    + rewrite filter_cons_True by done. rewrite filter_nil.
      rewrite options_dict_app, IH. by rewrite delete_insert_ne.
    + rewrite filter_cons_False by done. rewrite filter_nil, app_nil_r, IH.
      apply dec_stable in Heq. by rewrite Heq, delete_insert_eq.
Qed.

(** X13.  [set_option] never raises and is an upsert: a handle that reads
    the options of the session afterwards gets the dictionary it would have
    got before, with the name bound to the value as JSON gives it back
    (a tuple comes back as a list); the options of the other sessions, the
    nodes and the attributes are untouched. *)
Theorem set_option_upserts self name value w :
  ∃ self' w',
    NodeInfo.set_option self name value w = (inr self', w')
    ∧ stored_options (db w') (NodeInfo.uuid self)
      = <[name := json_loads (json_dumps value)]>
          (stored_options (db w) (NodeInfo.uuid self))
    ∧ (∀ u, u ≠ NodeInfo.uuid self →
            stored_options (db w') u = stored_options (db w) u)
    ∧ nodes_table (db w') = nodes_table (db w)
    ∧ attributes_table (db w') = attributes_table (db w)
    ∧ ∀ u started_at,
        fst (NodeInfo.options (NodeInfo.new u started_at) w')
        = inr (stored_options (db w') u,
               NodeInfo.with_options (NodeInfo.new u started_at)
                                     (stored_options (db w') u)).
Proof.
  destruct (set_option_eq self name value w)
    as (o & self0 & w0 & _ & _ & _ & ->).
  eexists _, _. split; [reflexivity|].
  unfold stored_options. cbn [db set_options options_table nodes_table
                              attributes_table].
  split; [|split; [|split; [done|split; [done|]]]].
  - rewrite filter_app, list_filter_filter.
    rewrite (list_filter_iff _
               (λ r, opt_name r ≠ name ∧ opt_uuid r = NodeInfo.uuid self))
      by (intros r; destruct (decide (opt_name r = name)); naive_solver).
    rewrite <- list_filter_filter.
    rewrite filter_cons_True by done. rewrite filter_nil.
    rewrite options_dict_app, options_dict_without. simpl.
    by rewrite insert_delete_eq.
  - intros u Hne. rewrite filter_app, list_filter_filter.
    rewrite filter_cons_False by (simpl; congruence).
    rewrite filter_nil, app_nil_r. f_equal. apply list_filter_iff.
    intros r. naive_solver.
  - intros u started_at. reflexivity.
Qed.

Lemma set_option_upserts_witness :
  stored_options
    (db (snd (NodeInfo.set_option (NodeInfo.new "u1" 10) "new_ipmi_credentials"
                (PyTuple [PyStr "admin"; PyStr "secret"]) store_created)))
    "u1"
  = {[ "new_ipmi_credentials" := PyList [PyStr "admin"; PyStr "secret"] ]}.
Proof.
  destruct (set_option_upserts (NodeInfo.new "u1" 10) "new_ipmi_credentials"
              (PyTuple [PyStr "admin"; PyStr "secret"]) store_created)
    as (self' & w' & Hrun & Hopts & _).
  rewrite Hrun. cbn [snd]. etransitivity; [exact Hopts|].
  vm_compute. reflexivity.
Defined.

(** ** Starting an introspection *)

(** X14.  When [introspect] raises, at whatever step, the database is as
    it was: no session is created, replaced or left half made. *)
Theorem introspect_failure_creates_nothing check_provision_state
    get_ipmi_address CONF ironic uuid credentials now w e w' :
  introspect check_provision_state get_ipmi_address CONF ironic uuid
             credentials now w = (inl e, w') →
  db w' = db w.
Proof.
  unfold introspect, bind, try_except, call, call_, raise, ret.
  destruct (node_get ironic uuid) as [e0|node].
  { destruct e0; by intros [= <- <-]. }
  cbv beta iota.
  destruct (check_provision_state node) as [e0|]; [by intros [= <- <-]|].
  cbv beta iota.
  assert (∀ validated,
            (let (s, w'0) := add_node (node_uuid node)
                               [("bmc_address",
                                 match get_ipmi_address node with
                                 | Some a => Some (Single a)
                                 | None => None
                                 end)] now w in
             match s with
             | inl e => (inl e, w'0)
             | inr a => NodeInfo.set_option a "new_ipmi_credentials"
                                            (credentials_obj validated) w'0
             end) = (inl e, w') → db w' = db w) as Hrest.
  { intros validated.
    destruct (add_node _ _ now w) as [[e1|node_info1] w1] eqn:Hadd.
    - apply add_node_inv in Hadd as [Hdb _]. by intros [= <- <-].
    - destruct (set_option_eq node_info1 "new_ipmi_credentials"
                  (credentials_obj validated) w1)
        as (o & self0 & w0 & _ & _ & _ & ->). done. }
  destruct credentials as [c|].
  - destruct (_validate_ipmi_credentials CONF node c) as [e0|c'];
      [by intros [= <- <-]|]. cbv beta iota. apply Hrest.
  - destruct (node_validate ironic (node_uuid node)) as [e0|v];
      [by intros [= <- <-]|]. cbv beta iota.
    destruct (power_result v); cbn [negb]; cbv beta iota;
      [apply Hrest|by intros [= <- <-]].
Qed.

Lemma introspect_failure_creates_nothing_witness :
  db (snd (introspect (λ _, None) (λ _, Some "1.2.3.4") (Config 1000 5 true)
                      ironic_other "u2" None 20 store_one))
  = db store_one.
Proof.
  refine (introspect_failure_creates_nothing
            (λ _, None) (λ _, Some "1.2.3.4") (Config 1000 5 true)
            ironic_other "u2" None 20 store_one
            (already_on_introspection "bmc_address" ["1.2.3.4"]) _ _).
  rewrite (surjective_pairing (introspect _ _ _ _ _ _ _ _)) at 1.
  apply (f_equal (λ r, (r, _))). vm_compute. reflexivity.
Defined.

Lemma initial_bmc_attributes uuid address :
  initial_attributes uuid
    [("bmc_address",
      match address with
      | Some a => Some (Single a)
      | None => None
      end)]
  = bmc_attributes uuid address.
Proof.
  unfold initial_attributes, item_attributes, bmc_attributes. simpl.
  destruct address as [a|]; simpl; [|done].
  destruct (String.eqb a EmptyString); simpl; by rewrite ?app_nil_r.
Qed.

(** X15.  When [introspect] returns, the node is known to the control
    plane, the handle is on its session, started now and not finished; the
    nodes table holds the fresh active row and the rows of the other
    sessions, and the attributes table holds the management address of the
    node for the session, if the node has one, and the rows of the other
    sessions. *)
Theorem introspect_creates_session check_provision_state get_ipmi_address
    CONF ironic uuid credentials now w node_info w' :
  introspect check_provision_state get_ipmi_address CONF ironic uuid
             credentials now w = (inr node_info, w') →
  ∃ node,
    node_get ironic uuid = inr node
    ∧ check_provision_state node = None
    ∧ prechecks_pass CONF ironic node credentials
    ∧ NodeInfo.uuid node_info = node_uuid node
    ∧ NodeInfo.started_at node_info = now
    ∧ NodeInfo.finished_at node_info = None
    ∧ nodes_table (db w')
      = filter (λ r, row_uuid r ≠ node_uuid node) (nodes_table (db w))
          ++ [NodeRow (node_uuid node) now None None]
    ∧ attributes_table (db w')
      = filter (λ a, attr_uuid a ≠ node_uuid node) (attributes_table (db w))
          ++ bmc_attributes (node_uuid node) (get_ipmi_address node).
Proof.
  intros Hrun.
  apply introspect_inr in Hrun
    as (node & validated & node_info1 & w1 & Hget & Hcheck & Hcred & Hadd & Hset).
  apply add_node_inv in Hadd as (-> & Hn & Ha & _).
  rewrite initial_bmc_attributes in Ha.
  destruct (set_option_eq (NodeInfo.new (node_uuid node) now)
              "new_ipmi_credentials" (credentials_obj validated) w1)
    as (o & self0 & w0 & Hopt & _ & Hu & Heq).
  rewrite Heq in Hset. injection Hset as <- <-.
  assert (self0 = NodeInfo.new (node_uuid node) now
          ∨ ∃ o', self0 = NodeInfo.with_options
                            (NodeInfo.new (node_uuid node) now) o') as Hself.
  { unfold NodeInfo.options in Hopt. simpl in Hopt.
    unfold bind, get_db, ret in Hopt. injection Hopt as _ <- _. eauto. }
  exists node. split; [done|]. split; [done|]. split.
  { unfold prechecks_pass. destruct credentials as [c|].
    - destruct Hcred as (c' & Hv & _). eauto.
    - by destruct Hcred as [Hv _]. }
  destruct Hself as [->|(o' & ->)]; simpl; auto.
Qed.

Lemma introspect_creates_session_witness :
  attributes_table
    (db (snd (introspect (λ _, None) (λ _, Some "1.2.3.4") (Config 1000 5 true)
                         ironic_ok "u1" None 20 store_one)))
  = [AttributeRow "bmc_address" "1.2.3.4" "u1"].
Proof.
  assert (introspect (λ _, None) (λ _, Some "1.2.3.4")
                     (Config 1000 5 true) ironic_ok "u1" None 20 store_one
          = (inr (NodeInfo.Make "u1" 20 None None
                    (Some {[ "new_ipmi_credentials" := PyNone ]}) None),
             snd (introspect (λ _, None) (λ _, Some "1.2.3.4")
                             (Config 1000 5 true) ironic_ok "u1" None 20
                             store_one))) as Hrun.
  { rewrite (surjective_pairing (introspect _ _ _ _ _ _ _ _)) at 1.
    apply (f_equal (λ r, (r, _))). vm_compute. reflexivity. }
  destruct (introspect_creates_session
              (λ _, None) (λ _, Some "1.2.3.4") (Config 1000 5 true) ironic_ok
              "u1" None 20 store_one _ _ Hrun)
    as (node & Hget & _ & _ & _ & _ & _ & _ & Ha).
  injection Hget as <-. rewrite Ha. reflexivity.
Defined.

(** X16.  A node whose management address is already held by another
    session cannot be put on introspection: with every precheck passed,
    [introspect] raises the duplicate error for bmc_address and leaves the
    database as it was. *)
Theorem introspect_duplicate_bmc_address check_provision_state
    get_ipmi_address CONF ironic uuid credentials now w node address a :
  node_get ironic uuid = inr node →
  check_provision_state node = None →
  prechecks_pass CONF ironic node credentials →
  get_ipmi_address node = Some address →
  address ≠ EmptyString →
  a ∈ attributes_table (db w) →
  attr_key a = ("bmc_address", address) →
  attr_uuid a ≠ node_uuid node →
  ∃ w',
    introspect check_provision_state get_ipmi_address CONF ironic uuid
               credentials now w
    = (inl (already_on_introspection "bmc_address" [address]), w')
    ∧ db w' = db w.
Proof.
  intros Hget Hcheck Hpre Haddr Hne Ha Hkey Hother.
  assert (∃ w', add_node (node_uuid node)
                         [("bmc_address", Some (Single address))] now w
                = (inl (already_on_introspection "bmc_address" [address]), w')
                ∧ db w' = db w) as (w1 & Hadd & Hdb).
  { unfold add_node, with_db, bind. rewrite !execute_eq. cbv beta iota.
    unfold execute_insert. cbn [db log]. rewrite insert_node_after_delete.
    cbn [for_loop]. unfold bind, add_node_step. cbn [fst snd is_empty].
    apply String.eqb_neq in Hne. rewrite Hne.
    unfold NodeInfo.add_attribute, _maybe_db, try_except. cbn [as_list executemany].
    unfold bind, execute_insert. cbn [db log].
    assert (insert_attribute "bmc_address" address
              (NodeInfo.uuid (NodeInfo.new (node_uuid node) now))
              (MkDB (filter (λ r, row_uuid r ≠ node_uuid node) (nodes_table (db w))
                       ++ [NodeRow (node_uuid node) now None None])
                    (filter (λ a, attr_uuid a ≠ node_uuid node)
                            (attributes_table (db w)))
                    (filter (λ o, opt_uuid o ≠ node_uuid node)
                            (options_table (db w))))
            = None) as ->.
    { apply insert_attribute_None. simpl. rewrite <- Hkey.
      apply list_elem_of_fmap. exists a. split; [done|].
      by apply list_elem_of_filter. }
    unfold LOG, raise. cbn [db log]. eauto. }
  unfold introspect, bind, try_except, call, call_, raise, ret.
  rewrite Hget. cbv beta iota. rewrite Hcheck. cbv beta iota.
  rewrite Haddr. unfold prechecks_pass in Hpre.
  destruct credentials as [c|].
  - destruct Hpre as (c' & ->). cbv beta iota. rewrite Hadd. eauto.
  - destruct Hpre as (v & -> & Hp). cbv beta iota. rewrite Hp.
    cbn [negb]. cbv beta iota. rewrite Hadd. eauto.
Qed.

Lemma introspect_duplicate_bmc_address_witness :
  ∃ w',
    introspect (λ _, None) (λ _, Some "1.2.3.4") (Config 1000 5 true)
               ironic_other "u2" None 20 store_one
    = (inl (already_on_introspection "bmc_address" ["1.2.3.4"]), w')
    ∧ db w' = db store_one.
Proof.
  apply (introspect_duplicate_bmc_address
           (λ _, None) (λ _, Some "1.2.3.4") (Config 1000 5 true) ironic_other
           "u2" None 20 store_one (Node "u2" false ∅) "1.2.3.4"
           (AttributeRow "bmc_address" "1.2.3.4" "u1")).
  - reflexivity.
  - reflexivity.
  - exists (Validation true EmptyString). split; reflexivity.
  - reflexivity.
  - discriminate.
  - by_computation.
  - reflexivity.
  - discriminate.
Defined.

(** ** The background task, other branches *)

(** X17.  With new credentials among the options the task takes no power
    action: once the MAC's are registered it only logs that a manual power
    on is required and returns, whatever the boot-device and power calls
    would have answered; the handler then leaves the session active. *)
Theorem background_with_credentials update_filters CONF ironic node_info now w
    node_info1 w1 o node_info2 w2 :
  whitelist_macs update_filters ironic node_info w = (inr node_info1, w1) →
  NodeInfo.options node_info1 w1 = (inr (o, node_info2), w2) →
  truthy (default PyNone (o !! "new_ipmi_credentials")) = true →
  let w' := World (db w1)
                  (log w1 ++ [Log INFO (manual_power_on_required
                                          CONF (NodeInfo.uuid node_info))]) in
  _background_introspect update_filters CONF ironic node_info w = (inr tt, w')
  ∧ _handle_exceptions update_filters CONF ironic node_info now w = (inr tt, w')
  ∧ nodes_table (db w') = nodes_table (db w).
Proof.
  intros Hwl Hopt Hcred w'.
  pose proof (whitelist_macs_nodes _ _ _ _ _ _ Hwl) as [Hn Hu1].
  specialize (Hu1 _ eq_refl).
  destruct (options_reads_only node_info1 w1) as (o' & self' & Hopt' & Hu2).
  rewrite Hopt' in Hopt. injection Hopt as -> -> <-.
  assert (_background_introspect update_filters CONF ironic node_info w
          = (inr tt, w')) as Hbg.
  { unfold _background_introspect, bind. rewrite Hwl, Hopt'. cbn [fst snd].
    rewrite Hcred. cbn [negb]. unfold LOG, manual_power_on_required in *.
    subst w'. by rewrite Hu2, Hu1. }
  split; [exact Hbg|]. split; [|exact Hn].
  unfold _handle_exceptions, try_except. by rewrite Hbg.
Qed.

Lemma background_with_credentials_witness :
  nodes_table
    (db (snd (_handle_exceptions (λ _, None) (Config 1000 5 true) ironic_no_power
                (NodeInfo.Make "u1" 10 None None
                   (Some {[ "new_ipmi_credentials" :=
                              PyTuple [PyStr "admin"; PyStr "secret"] ]})
                   None)
                50 store_created)))
  = nodes_table (db store_created).
Proof.
  pose (h := NodeInfo.Make "u1" 10 None None
               (Some {[ "new_ipmi_credentials" :=
                          PyTuple [PyStr "admin"; PyStr "secret"] ]})
               None).
  pose (o := ({[ "new_ipmi_credentials" :=
                   PyTuple [PyStr "admin"; PyStr "secret"] ]}
              : gmap string pyobj)).
  assert (whitelist_macs (λ _, None) ironic_no_power h store_created
          = (inr (NodeInfo.with_ports h ["aa"; "bb"]),
             snd (whitelist_macs (λ _, None) ironic_no_power h store_created)))
    as Hwl.
  { rewrite (surjective_pairing (whitelist_macs _ _ _ _)) at 1.
    apply (f_equal (λ r, (r, _))). vm_compute. reflexivity. }
  assert (NodeInfo.options (NodeInfo.with_ports h ["aa"; "bb"])
            (snd (whitelist_macs (λ _, None) ironic_no_power h store_created))
          = (inr (o, NodeInfo.with_ports h ["aa"; "bb"]),
             snd (whitelist_macs (λ _, None) ironic_no_power h store_created)))
    as Hopt by reflexivity.
  assert (truthy (default PyNone (o !! "new_ipmi_credentials")) = true)
    as Hcred by (vm_compute; reflexivity).
  destruct (background_with_credentials (λ _, None) (Config 1000 5 true)
              ironic_no_power h 50 store_created _ _ _ _ _ Hwl Hopt Hcred)
    as (_ & Hrun & Hn).
  fold h. rewrite Hrun. exact Hn.
Defined.

(** The cache of the handle aside, [ports] asks the control plane and keeps
    each address once. *)
Lemma ports_fetched node_info ironic l w :
  NodeInfo._ports node_info = None →
  node_list_ports ironic (NodeInfo.uuid node_info) = inr l →
  NodeInfo.ports node_info ironic w
  = (inr (remove_dups l, NodeInfo.with_ports node_info (remove_dups l)), w).
Proof.
  intros Hcache Hlist. unfold NodeInfo.ports, bind, call, ret.
  by rewrite Hcache, Hlist.
Qed.

(** X18.  When a port of the node has a MAC that is already in the
    attributes table, the task cannot register the MAC's: it raises the
    duplicate error, and the handler finishes the session with the text of
    that error: every row of the session gets the time of the handler and
    that text, and the attribute and option rows of the session are deleted.
    The rows of the other sessions, and their attributes and options, stay
    as they are. *)
Theorem background_mac_conflict update_filters CONF ironic node_info now w l v :
  NodeInfo._ports node_info = None →
  node_list_ports ironic (NodeInfo.uuid node_info) = inr l →
  v ∈ l →
  (MACS_ATTRIBUTE, v) ∈ (attr_key <$> attributes_table (db w)) →
  let uuid := NodeInfo.uuid node_info in
  let exc := already_on_introspection MACS_ATTRIBUTE (remove_dups l) in
  fst (_background_introspect update_filters CONF ironic node_info w) = inl exc
  ∧ ∃ w',
      _handle_exceptions update_filters CONF ironic node_info now w = (inr tt, w')
      ∧ db w' = delete_options uuid
                  (delete_attributes uuid
                     (update_finished uuid now (Some (str exc)) (db w)))
      ∧ session_finished (db w) (db w') uuid now (Some (str exc)).
Proof.
  intros Hcache Hlist Hv Hheld uuid exc.
  assert (∃ w1, _background_introspect update_filters CONF ironic node_info w
                = (inl exc, w1) ∧ db w1 = db w) as (w1 & Hbg & Hdb).
  { unfold _background_introspect, whitelist_macs, bind.
    rewrite (ports_fetched _ _ _ _ Hcache Hlist). cbn [fst snd].
    destruct (remove_dups l) as [|mac macs] eqn:Hmacs.
    { apply elem_of_remove_dups in Hv. rewrite Hmacs in Hv.
      by apply elem_of_nil in Hv. }
    destruct (NodeInfo.add_attribute
                (NodeInfo.with_ports node_info (mac :: macs)) MACS_ATTRIBUTE
                (Many (mac :: macs)) false w) as [r w1] eqn:Hadd.
    apply add_attribute_inv in Hadd as (_ & _ & Hr).
    destruct r as [e|[]].
    - destruct Hr as [-> Hrollback]. exists w1. split; [|by apply Hrollback].
      subst exc. rewrite ?Hmacs. reflexivity.
    - destruct Hr as (_ & _ & Hfresh & _). destruct (Hfresh v); [|done].
      simpl. rewrite <- Hmacs. by apply elem_of_remove_dups. }
  split; [by rewrite Hbg|].
  unfold _handle_exceptions, try_except. rewrite Hbg.
  change (is_utils_Error exc) with true. cbv beta iota. unfold bind.
  rewrite finished_eq. eexists. split; [reflexivity|]. cbn [db].
  rewrite Hdb. split; [done|]. apply finished_session_finished.
Qed.

Lemma background_mac_conflict_witness :
  ∃ w',
    _handle_exceptions (λ _, None) (Config 1000 5 true) ironic_ok
                       (NodeInfo.new "u2" 96) 150 store_two = (inr tt, w')
    ∧ NodeRow "u2" 96 (Some 150%Z)
        (Some (str (already_on_introspection MACS_ATTRIBUTE ["aa"; "bb"])))
      ∈ nodes_table (db w')
    ∧ (NodeRow "u1" 10 None None ∈ nodes_table (db w'))
    ∧ (AttributeRow "mac" "aa" "u1" ∈ attributes_table (db w'))
    ∧ (AttributeRow "mac" "bb" "u2" ∉ attributes_table (db w')).
Proof.
  destruct (background_mac_conflict (λ _, None) (Config 1000 5 true) ironic_ok
              (NodeInfo.new "u2" 96) 150 store_two ["aa"; "bb"] "aa")
    as (_ & w' & Hrun & _ & Hset & _ & Hothers & Hattrs & _).
  - reflexivity.
  - reflexivity.
  - by_computation.
  - by_computation.
  - exists w'. split; [exact Hrun|]. split; [|split; [|split]].
    + apply (Hset (NodeRow "u2" 96 None None)); [|reflexivity].
      apply elem_of_cons. right. apply elem_of_cons. by left.
    + apply Hothers; [discriminate|]. apply elem_of_cons. by left.
    + apply Hattrs. split; [|discriminate]. apply elem_of_cons. by left.
    + intros Hin. apply Hattrs in Hin as [_ Hne]. by apply Hne.
Defined.

(** X19.  When no MAC of the ports is in the attributes table and the
    firewall update returns, the task registers every MAC for the session,
    once each however often the control plane lists it, and all of them are
    among the active MAC's afterwards.  Nothing is registered for a node
    without ports. *)
Theorem whitelist_registers_macs update_filters ironic node_info w l :
  NodeInfo._ports node_info = None →
  node_list_ports ironic (NodeInfo.uuid node_info) = inr l →
  (∀ v, v ∈ l →
        (MACS_ATTRIBUTE, v) ∉ (attr_key <$> attributes_table (db w))) →
  update_filters ironic = None →
  ∃ w',
    whitelist_macs update_filters ironic node_info w
    = (inr (NodeInfo.with_ports node_info (remove_dups l)), w')
    ∧ attributes_table (db w')
      = attributes_table (db w)
          ++ new_attributes MACS_ATTRIBUTE (NodeInfo.uuid node_info)
                            (remove_dups l)
    ∧ nodes_table (db w') = nodes_table (db w)
    ∧ options_table (db w') = options_table (db w)
    ∧ ∃ macs, active_macs w' = (inr macs, w') ∧ ∀ v, v ∈ l → v ∈ macs.
Proof.
  intros Hcache Hlist Hfree Hfw.
  unfold whitelist_macs, bind.
  rewrite (ports_fetched _ _ _ _ Hcache Hlist). cbn [fst snd].
  assert (∀ w', attributes_table (db w')
                = attributes_table (db w)
                    ++ new_attributes MACS_ATTRIBUTE (NodeInfo.uuid node_info)
                                      (remove_dups l) →
                ∃ macs, active_macs w' = (inr macs, w') ∧ ∀ v, v ∈ l → v ∈ macs)
    as Hactive.
  { intros w' Ha. rewrite active_macs_eq. eexists. split; [reflexivity|].
    intros v Hv. apply elem_of_list_to_set, list_elem_of_fmap.
    exists (AttributeRow MACS_ATTRIBUTE v (NodeInfo.uuid node_info)).
    split; [done|]. apply list_elem_of_filter. split; [done|].
    rewrite Ha. apply elem_of_app. right. apply list_elem_of_fmap.
    exists v. split; [done|]. by apply elem_of_remove_dups. }
  destruct (remove_dups l) as [|mac macs] eqn:Hmacs.
  { unfold ret. exists w. split; [done|].
    assert (attributes_table (db w)
            = attributes_table (db w)
                ++ new_attributes MACS_ATTRIBUTE (NodeInfo.uuid node_info) [])
      as Ha by (by rewrite app_nil_r).
    repeat split; auto. }
  assert (NoDup (as_list (Many (mac :: macs)))) as Hnd.
  { simpl. rewrite <- Hmacs. apply NoDup_remove_dups. }
  assert (∀ v, v ∈ as_list (Many (mac :: macs)) →
               (MACS_ATTRIBUTE, v) ∉ (attr_key <$> attributes_table (db w)))
    as Hfresh.
  { intros v Hv. apply Hfree. simpl in Hv. rewrite <- Hmacs in Hv.
    exact (proj1 (elem_of_remove_dups l v) Hv). }
  destruct (add_attribute_ok (NodeInfo.with_ports node_info (mac :: macs))
              MACS_ATTRIBUTE (Many (mac :: macs)) false w Hnd Hfresh)
    as (w1 & Hadd).
  rewrite Hadd.
  apply add_attribute_inv in Hadd as (Hn & Ho & Ha & _).
  unfold LOG, call_, ret. cbn [db log]. rewrite Hfw.
  eexists. split; [reflexivity|]. cbn [db]. simpl in Ha.
  repeat split; auto.
Qed.

Lemma whitelist_registers_macs_witness :
  ∃ w',
    whitelist_macs (λ _, None) ironic_ok (NodeInfo.new "u1" 10) store_created
    = (inr (NodeInfo.with_ports (NodeInfo.new "u1" 10) ["aa"; "bb"]), w')
    ∧ attributes_table (db w')
      = [AttributeRow "bmc_address" "1.2.3.4" "u1";
         AttributeRow "mac" "aa" "u1"; AttributeRow "mac" "bb" "u1"].
Proof.
  destruct (whitelist_registers_macs (λ _, None) ironic_ok
              (NodeInfo.new "u1" 10) store_created ["aa"; "bb"])
    as (w' & Hrun & Ha & _).
  - reflexivity.
  - reflexivity.
  - intros v Hv. apply elem_of_cons in Hv as [->|Hv]; [by_computation|].
    apply list_elem_of_singleton in Hv as ->. by_computation.
  - reflexivity.
  - exists w'. split; [exact Hrun|]. rewrite Ha. reflexivity.
Defined.

(** ** Which error the validation of credentials raises *)

(** X20.  The checks of [_validate_ipmi_credentials] are made in a fixed
    order and the first that fails decides the error: setting credentials
    disabled; node not in maintenance mode; no user name, given or in
    [driver_info]; a character that is not a letter or a digit, in which
    case the error lists exactly the offending characters of the password,
    each once; and only then the length, so that an empty password and one
    of more than 20 letters and digits get the length error. *)
Theorem validate_ipmi_credentials_errors CONF node username password :
  (enable_setting_ipmi_credentials CONF = false →
   _validate_ipmi_credentials CONF node (username, password)
   = inl (Error (Lit "IPMI credentials setup is disabled in configuration")
                default_code))
  ∧ (enable_setting_ipmi_credentials CONF = true →
     maintenance node = false →
     _validate_ipmi_credentials CONF node (username, password)
     = inl (Error (Lit "Node should be in maintenance mode to set IPMI credentials on it")
                  default_code))
  ∧ (enable_setting_ipmi_credentials CONF = true →
     maintenance node = true →
     resolved_username node username = EmptyString →
     ∃ msg, _validate_ipmi_credentials CONF node (username, password)
            = inl (Error (Text msg [ArgStr (node_uuid node)]) default_code))
  ∧ (enable_setting_ipmi_credentials CONF = true →
     maintenance node = true →
     resolved_username node username ≠ EmptyString →
     (¬ alphanumeric password →
      ∃ chars,
        _validate_ipmi_credentials CONF node (username, password)
        = inl (forbidden_characters (node_uuid node) chars)
        ∧ NoDup chars
        ∧ ∀ c, c ∈ chars ↔
               c ∈ String.list_ascii_of_string password ∧ is_alnum c = false)
     ∧ (alphanumeric password →
        ¬ (1 ≤ String.length password ≤ 20)%nat →
        _validate_ipmi_credentials CONF node (username, password)
        = inl wrong_password_length)).
Proof.
  unfold _validate_ipmi_credentials. cbn [fst snd].
  fold (resolved_username node username).
  split; [by intros ->|]. split; [by intros -> ->|]. split.
  { intros -> -> Hu. simpl. rewrite Hu. simpl. eauto. }
  intros -> -> Hu. simpl. apply String.eqb_neq in Hu. rewrite Hu.
  pose proof (wrong_chars_nil password) as Hwrong.
  set (wrong := remove_dups
                  (filter (λ c, c ∉ PASSWORD_ACCEPTED_CHARS)
                          (String.list_ascii_of_string password))) in *.
  assert (NoDup wrong) as Hnd by apply NoDup_remove_dups.
  assert (∀ c, c ∈ wrong ↔
               c ∈ String.list_ascii_of_string password ∧ is_alnum c = false)
    as Hchars.
  { intros c. unfold wrong.
    rewrite elem_of_remove_dups, list_elem_of_filter, accepted_chars_alnum.
    destruct (is_alnum c); naive_solver. }
  destruct wrong as [|c cs].
  - split; [intros Hbad; by destruct Hbad; apply Hwrong|].
    intros _ Hlen. unfold PASSWORD_MAX_LENGTH, wrong_password_length.
    by rewrite bool_decide_eq_false_2.
  - split.
    + intros _. exists (c :: cs). done.
    + intros Hal%Hwrong. done.
Qed.

Lemma validate_ipmi_credentials_errors_witness :
  ∃ chars,
    _validate_ipmi_credentials (Config 1000 5 true) node_in_maintenance
                               ("root", "abc def!")
    = inl (forbidden_characters "u1" chars)
    ∧ ∀ c, c ∈ chars ↔
           c ∈ String.list_ascii_of_string "abc def!" ∧ is_alnum c = false.
Proof.
  destruct (validate_ipmi_credentials_errors (Config 1000 5 true)
              node_in_maintenance "root" "abc def!")
    as (_ & _ & _ & Herr).
  destruct (Herr eq_refl eq_refl) as [Hbad _]; [discriminate|].
  destruct Hbad as (chars & Hrun & _ & Hchars).
  - unfold alphanumeric. rewrite Forall_forall. intros Hall.
    assert (is_alnum (Ascii.ascii_of_nat 32) = true) as Hsp;
      [|by vm_compute in Hsp].
    apply Hall. by_computation.
  - exists chars. split; [exact Hrun|exact Hchars].
Defined.
